(** * remind101/amqp: a thin client over an AMQP 0-9-1 library

    A shallow embedding of the Go package [amqp] (exchange, queue, message,
    acknowledger, null acknowledger) and the proofs of its specification.

    The package is glue code around the client library
    [github.com/streadway/amqp]: almost every line is a call into that
    library, a receive or a send on a Go channel, or a call of a
    caller-supplied function.  The embedding therefore keeps the package's
    own control flow as Rocq functions in a small monad [M], and treats
    everything outside the package as an environment:

    - each interaction with the outside is a [Request]; the environment
      [env] of the world answers it, possibly depending on the whole
      history, and the request is appended to the [log] with its answer;
    - an answer is an [Outcome]: the call returned a value, it blocks for
      ever, or it panicked;
    - the struct behind an [*ExchangeOptions] pointer lives in the [heap]
      of the world, because [NewExchange] writes through that pointer;
    - [go func() { ... }()] records the closure in [goroutines]; the body of
      the closure is [Queue.consume_for], a loop with fuel. *)

From Stdlib Require Import ZArith.
From Stdlib.Strings Require Import String Byte.
From stdpp Require Import base option list strings gmap.

(** ** Errors *)

(** [amqp.Error] of the client library; [*amqp.Error] implements [error]. *)
Record AmqpError := {
  Code : Z;
  Reason : string;
  Server : bool;
  Recover : bool
}.

(** A non-nil Go [error] value: one made by [errors.New], or a library
    error. *)
Inductive Err :=
| ErrorString (msg : string)
| FromAmqp (e : AmqpError).

(** Go's [error]: [None] is [nil]. *)
Abbreviation error := (option Err).

(** ** Outcomes of a computation *)

Inductive Outcome (A : Type) :=
| Returned (a : A)        (* the call returned [a] *)
| Blocked                 (* the goroutine waits for ever *)
| Panicked (msg : string) (* a panic unwinds the goroutine *)
| OutOfFuel.              (* the model's loop bound was reached *)
Arguments Returned {A} a.
Arguments Blocked {A}.
Arguments Panicked {A} msg.
Arguments OutOfFuel {A}.

(** ** Values of the client library *)

(** [interface{}] values stored in an [amqp.Table]. *)
Inductive Value :=
| VString (s : string)
| VInt (z : Z)
| VBool (b : bool).

(** [amqp.Table], that is [map[string]interface{}]. *)
Abbreviation Table := (gmap string Value).

(** [*amqp.Connection] and [*amqp.Channel]: [None] is the nil pointer. *)
Abbreviation Connection := (option nat).
Abbreviation Channel := (option nat).

(** An [amqp.Acknowledger] interface value (in practice the channel). *)
Abbreviation AmqpAcknowledger := (option nat).

(** A Go channel value, named by its identity. *)
Abbreviation Chan := nat.

(** Modelled from the spec: the client library's delivery modes
    [amqp.Transient] and [amqp.Persistent] are declared outside this
    repository; the spec only names them "transient" and "persistent", the
    numbers are those of AMQP 0-9-1. *)
Definition Transient : Z := 1%Z.
Definition Persistent : Z := 2%Z.

(** [amqp.Publishing], with the fields the package sets; every other field
    keeps its zero value. *)
Record Publishing := {
  pub_Headers : Table;
  pub_ContentType : string;
  pub_Body : list byte;
  pub_DeliveryMode : Z;
  pub_Priority : Z
}.

(** [amqp.Delivery], with the fields the package reads. *)
Record Delivery := {
  dlv_Acknowledger : AmqpAcknowledger;
  dlv_DeliveryTag : Z;
  dlv_Headers : Table;
  dlv_Body : list byte
}.

(** [amqp.Queue], the first result of [QueueDeclare] (discarded here). *)
Record QueueState := {
  qs_Name : string;
  qs_Messages : Z;
  qs_Consumers : Z
}.

(** ** Values of the package *)

(** A [func()] value: the package's [DefaultOnDisconnect], or a closure
    supplied by the caller. *)
Inductive Func :=
| DefaultOnDisconnect
| Closure (id : nat).

Record ExchangeOptions := {
  eo_Name : string;
  eo_Type : string;
  eo_Durable : bool;
  eo_AutoDelete : bool;
  eo_OnDisconnect : option Func
}.

Record QueueOptions := {
  qo_Durable : bool;
  qo_AutoDelete : bool;
  qo_RoutingKey : string;
  qo_PrefetchCount : Z;
  qo_PrefetchSize : Z
}.

Record Exchange := {
  ex_Name : string;
  ex_connection : Connection;
  ex_channel : Channel;
  ex_onDisconnect : option Func
}.

Record Queue := {
  q_exchange : Exchange;
  q_routingKey : string;
  q_name : string
}.

(** [acknowledger] wraps an [amqp.Acknowledger] and a delivery tag. *)
Record acknowledger := {
  ack_Acknowledger : AmqpAcknowledger;
  ack_deliveryTag : Z
}.

Record Message := {
  msg_Acknowledger : acknowledger;
  msg_Headers : Table;
  msg_Body : list byte
}.

(** [type Acknowledgement int] and its constants, numbered by [iota]. *)
Abbreviation Acknowledgement := Z.
Definition Unacknowledged : Acknowledgement := 0%Z.
Definition Acked : Acknowledgement := 1%Z.
Definition Requeued : Acknowledgement := 2%Z.
Definition Dropped : Acknowledgement := 3%Z.

Record NullAcknowledger := {
  na_acked : bool;
  na_Acknowledgement : Acknowledgement
}.

Definition DefaultURL : string := "amqp://localhost".

(** [DefaultQueueOptions]; [NewQueue] only reads through the pointer, so the
    struct is passed by value and [None] stands for the nil pointer. *)
Definition DefaultQueueOptions : QueueOptions :=
  {| qo_Durable := true; qo_AutoDelete := false; qo_RoutingKey := "";
     qo_PrefetchCount := 0%Z; qo_PrefetchSize := 0%Z |}.

(** [DefaultExchangeOptions] is a pointer; the struct it points to is at
    this address of the heap, with this initial content. *)
Definition DefaultExchangeOptions : nat := 0.
Definition DefaultExchangeOptions_init : ExchangeOptions :=
  {| eo_Name := "hutch"; eo_Type := "topic"; eo_Durable := true;
     eo_AutoDelete := false; eo_OnDisconnect := Some DefaultOnDisconnect |}.

Definition ErrAlreadyAcked : Err := ErrorString "already acked".

(** ** Requests to the environment *)

(** The index is the Go result type of the operation. *)
Inductive Request : Type -> Type :=
(* github.com/streadway/amqp *)
| Dial (url : string) : Request (Connection * error)
| Connection_Channel (c : Connection) : Request (Channel * error)
| Connection_Close (c : Connection) : Request error
| Channel_ExchangeDeclare (ch : Channel) (name kind : string)
    (durable autoDelete internal noWait : bool) (args : option Table)
  : Request error
| Channel_Publish (ch : Channel) (exchange key : string)
    (mandatory immediate : bool) (msg : Publishing) : Request error
| Channel_Close (ch : Channel) : Request error
| Channel_QueueDeclare (ch : Channel) (name : string)
    (durable autoDelete exclusive noWait : bool) (args : option Table)
  : Request (QueueState * error)
| Channel_Qos (ch : Channel) (prefetchCount prefetchSize : Z) (global : bool)
  : Request error
| Channel_QueuePurge (ch : Channel) (name : string) (noWait : bool)
  : Request (Z * error)
| Channel_Consume (ch : Channel) (queue consumer : string)
    (autoAck exclusive noLocal noWait : bool) (args : option Table)
  : Request (Chan * error)
| Channel_Cancel (ch : Channel) (consumer : string) (noWait : bool)
  : Request error
| Channel_NotifyClose (ch : Channel) (c : Chan) : Request Chan
| Channel_QueueBind (ch : Channel) (name key exchange : string)
    (noWait : bool) (args : option Table) : Request error
| Acknowledger_Ack (a : AmqpAcknowledger) (tag : Z) (multiple : bool)
  : Request error
| Acknowledger_Nack (a : AmqpAcknowledger) (tag : Z)
    (multiple requeue : bool) : Request error
(* the Go runtime: receive, send, close on a channel, call of a func();
   the package itself never closes a channel *)
| RecvError (c : Chan) : Request (option AmqpError)
| RecvDelivery (c : Chan) : Request (Delivery * bool)
| SendMessage (c : Chan) (m : Message) : Request unit
| CloseChan (c : Chan) : Request unit
| CallFunc (f : option Func) : Request unit.

(** One entry of the log: a request and what came back. *)
Inductive Event :=
| Ev {T : Type} (r : Request T) (a : Outcome T).

(** The environment answers a request from the history so far. *)
Definition Env := forall T : Type, list Event -> Request T -> Outcome T.

(** The variables a spawned consumer closure captures. *)
Record Goroutine := {
  g_queue : Queue;
  g_dd : Chan;
  g_messages : Chan
}.

Record World := {
  log : list Event;
  env : Env;
  heap : gmap nat ExchangeOptions;
  nextChan : Chan;
  goroutines : list Goroutine
}.

Definition set_log (l : list Event) (w : World) : World :=
  {| log := l; env := env w; heap := heap w; nextChan := nextChan w;
     goroutines := goroutines w |}.

Definition set_heap (h : gmap nat ExchangeOptions) (w : World) : World :=
  {| log := log w; env := env w; heap := h; nextChan := nextChan w;
     goroutines := goroutines w |}.

Definition set_nextChan (n : Chan) (w : World) : World :=
  {| log := log w; env := env w; heap := heap w; nextChan := n;
     goroutines := goroutines w |}.

Definition set_goroutines (gs : list Goroutine) (w : World) : World :=
  {| log := log w; env := env w; heap := heap w; nextChan := nextChan w;
     goroutines := gs |}.

(** ** The monad *)

Definition M (A : Type) : Type := World -> Outcome A * World.

#[global] Instance M_ret : MRet M := fun A a w => (Returned a, w).

#[global] Instance M_bind : MBind M := fun A B k m w =>
  match m w with
  | (Returned a, w') => k a w'
  | (Blocked, w') => (Blocked, w')
  | (Panicked msg, w') => (Panicked msg, w')
  | (OutOfFuel, w') => (OutOfFuel, w')
  end.

(** Log request [r] with the answer [a]. *)
Definition perform {T} (r : Request T) (a : Outcome T) : M T :=
  fun w => (a, set_log (log w ++ [Ev r a]) w).

(** What the environment of [w] answers to [r] now. *)
Definition answer {T} (w : World) (r : Request T) : Outcome T :=
  env w T (log w) r.

(** Ask the environment. *)
Definition call {T} (r : Request T) : M T :=
  fun w => perform r (answer w r) w.

Definition out_of_fuel {A} : M A := fun w => (OutOfFuel, w).

(** [make(chan T)]: a channel no one has seen before. *)
Definition make_chan : M Chan :=
  fun w => (Returned (nextChan w), set_nextChan (S (nextChan w)) w).

(** [go f()]. *)
Definition go (g : Goroutine) : M unit :=
  fun w => (Returned tt, set_goroutines (goroutines w ++ [g]) w).

(** The message of the Go runtime's panic on a nil dereference. *)
Definition nil_dereference : string :=
  "invalid memory address or nil pointer dereference".

(** [*p] and [*p = o] for [p *ExchangeOptions].  Go pointers always point
    to a struct; an address outside the heap is treated like nil. *)
Definition load (p : nat) : M ExchangeOptions :=
  fun w => match heap w !! p with
           | Some o => (Returned o, w)
           | None => (Panicked nil_dereference, w)
           end.

Definition store (p : nat) (o : ExchangeOptions) : M unit :=
  fun w => (Returned tt, set_heap (<[p := o]> (heap w)) w).

(** How a call of a [func()] value ends.  The package's own
    [DefaultOnDisconnect] panics with "Lost connection", a nil function
    cannot be called, and what a caller's closure does is up to the
    environment. *)
Definition func_outcome (f : option Func) (w : World) : Outcome unit :=
  match f with
  | None => Panicked nil_dereference
  | Some DefaultOnDisconnect => Panicked "Lost connection"
  | Some (Closure _) => answer w (CallFunc f)
  end.

(** Call of a [func()] value. *)
Definition invoke (f : option Func) : M unit :=
  fun w => perform (CallFunc f) (func_outcome f w) w.

(** The events a computation adds to the log. *)
Definition trace {A} (m : M A) (w : World) : list Event :=
  drop (length (log w)) (log (m w).2).

(** How a computation ends, and the world it leaves. *)
Definition outcome {A} (m : M A) (w : World) : Outcome A := (m w).1.

Definition after {A} (m : M A) (w : World) : World := (m w).2.

#[global] Instance Outcome_fmap : FMap Outcome := fun A B f o =>
  match o with
  | Returned a => Returned (f a)
  | Blocked => Blocked
  | Panicked msg => Panicked msg
  | OutOfFuel => OutOfFuel
  end.

(** ** NullAcknowledger *)

Module NullAcknowledger.

(** [&NullAcknowledger{}]. *)
Definition new : NullAcknowledger :=
  {| na_acked := false; na_Acknowledgement := Unacknowledged |}.

(** The methods have pointer receivers: they return the error and the
    struct as they leave it. *)
Definition Ack (a : NullAcknowledger) : error * NullAcknowledger :=
  if na_acked a then (Some ErrAlreadyAcked, a)
  else (None, {| na_acked := true; na_Acknowledgement := Acked |}).

Definition Nack (a : NullAcknowledger) (requeue : bool)
  : error * NullAcknowledger :=
  if na_acked a then (Some ErrAlreadyAcked, a)
  else (None, {| na_acked := true;
                 na_Acknowledgement := if requeue then Requeued else Dropped |}).

End NullAcknowledger.

(** [Acknowledgement.String]. *)
Definition Acknowledgement_String (a : Acknowledgement) : string :=
  if decide (a = Acked) then "acked"
  else if decide (a = Requeued) then "requeued"
  else if decide (a = Dropped) then "dropped"
  else "unacknowledged".

(** A call on the [Acknowledger] interface of the package: either method. *)
Inductive AckCall :=
| CallAck
| CallNack (requeue : bool).

Definition NullAcknowledger_call (c : AckCall) (a : NullAcknowledger)
  : error * NullAcknowledger :=
  match c with
  | CallAck => NullAcknowledger.Ack a
  | CallNack requeue => NullAcknowledger.Nack a requeue
  end.

(** A sequence of calls on one instance: the errors, and the final struct. *)
Fixpoint NullAcknowledger_calls (cs : list AckCall) (a : NullAcknowledger)
  : list error * NullAcknowledger :=
  match cs with
  | [] => ([], a)
  | c :: cs' =>
      let '(e, a') := NullAcknowledger_call c a in
      let '(es, a'') := NullAcknowledger_calls cs' a' in
      (e :: es, a'')
  end.

(** ** acknowledger *)

Module acknowledger_.

Definition Ack (d : acknowledger) : M error :=
  call (Acknowledger_Ack (ack_Acknowledger d) (ack_deliveryTag d) false).

Definition Nack (d : acknowledger) (requeue : bool) : M error :=
  call (Acknowledger_Nack (ack_Acknowledger d) (ack_deliveryTag d) false requeue).

End acknowledger_.

(** ** Exchange *)

Definition set_OnDisconnect (f : option Func) (o : ExchangeOptions)
  : ExchangeOptions :=
  {| eo_Name := eo_Name o; eo_Type := eo_Type o; eo_Durable := eo_Durable o;
     eo_AutoDelete := eo_AutoDelete o; eo_OnDisconnect := f |}.

Module Exchange.

(** [NewExchange(url, options)]; [options] is a pointer, [None] is nil.  The
    two results, an [*Exchange] and an [error], are returned as a pair. *)
Definition NewExchange (url : string) (options : option nat)
  : M (option Exchange * error) :=
  let url := if decide (url = ""%string) then DefaultURL else url in
  let options :=
    match options with None => DefaultExchangeOptions | Some p => p end in
  '(c, err) ← call (Dial url);
  if err is Some _ then mret (None, err) else
  '(ch, err) ← call (Connection_Channel c);
  if err is Some _ then mret (None, err) else
  o ← load options;
  (if eo_OnDisconnect o is None
   then store options (set_OnDisconnect (Some DefaultOnDisconnect) o)
   else mret tt);;
  o ← load options;
  err ← call (Channel_ExchangeDeclare ch (eo_Name o) (eo_Type o)
                (eo_Durable o) (eo_AutoDelete o) false false None);
  if err is Some _ then mret (None, err) else
  mret (Some {| ex_Name := eo_Name o; ex_connection := c; ex_channel := ch;
                ex_onDisconnect := eo_OnDisconnect o |}, None).

Definition publish (e : Exchange) (routingKey message requestID : string)
    (deliveryMode : Z) : M error :=
  if ex_channel e is None then mret (Some (ErrorString "channel is nil")) else
  let msg :=
    {| pub_Headers := {[ "request_id"%string := VString requestID ]};
       pub_ContentType := "application/json";
       pub_Body := list_byte_of_string message;
       pub_DeliveryMode := deliveryMode;
       pub_Priority := 0 |} in
  call (Channel_Publish (ex_channel e) (ex_Name e) routingKey false false msg).

Definition Publish (e : Exchange) (routingKey message requestID : string)
  : M error :=
  publish e routingKey message requestID Persistent.

Definition PublishTransient (e : Exchange)
    (routingKey message requestID : string) : M error :=
  publish e routingKey message requestID Transient.

Definition Close (e : Exchange) : M error :=
  err ← call (Channel_Close (ex_channel e));
  if err is Some _ then mret err else
  call (Connection_Close (ex_connection e)).

End Exchange.

(** ** Queue *)

Module Queue.

(** [NewQueue(queueName, exchange, options)]; the two results, a
    [*Queue] and an [error], are returned as a pair. *)
Definition NewQueue (queueName : string) (exchange : Exchange)
    (options : option QueueOptions) : M (option Queue * error) :=
  let options :=
    match options with None => DefaultQueueOptions | Some o => o end in
  '(_, err) ← call (Channel_QueueDeclare (ex_channel exchange) queueName
                      (qo_Durable options) (qo_AutoDelete options)
                      false false None);
  if err is Some _ then mret (None, err) else
  if (0 <? qo_PrefetchCount options)%Z || (0 <? qo_PrefetchSize options)%Z
  then
    err ← call (Channel_Qos (ex_channel exchange) (qo_PrefetchCount options)
                  (qo_PrefetchSize options) false);
    if err is Some _ then mret (None, err) else
    mret (Some {| q_exchange := exchange;
                  q_routingKey := qo_RoutingKey options;
                  q_name := queueName |}, None)
  else
    mret (Some {| q_exchange := exchange;
                  q_routingKey := qo_RoutingKey options;
                  q_name := queueName |}, None).

Definition Purge (q : Queue) : M error :=
  '(_, err) ← call (Channel_QueuePurge (ex_channel (q_exchange q)) (q_name q)
                      false);
  mret err.

Definition Name (q : Queue) : string := q_name q.

Definition consumerName (q : Queue) : string := q_name q.

Definition bind (q : Queue) : M error :=
  call (Channel_QueueBind (ex_channel (q_exchange q)) (q_name q)
          (q_routingKey q) (ex_Name (q_exchange q)) false None).

(** The [*Message] built from a delivery. *)
Definition message (d : Delivery) : Message :=
  {| msg_Acknowledger :=
       {| ack_Acknowledger := dlv_Acknowledger d;
          ack_deliveryTag := dlv_DeliveryTag d |};
     msg_Headers := dlv_Headers d;
     msg_Body := dlv_Body d |}.

(** One pass through the [select] of the consumer closure; the result is
    the value of [open] after it. *)
Definition consume_select (q : Queue) (dd messages : Chan) : M bool :=
  '(d, ok) ← call (RecvDelivery dd);
  if negb ok then
    invoke (ex_onDisconnect (q_exchange q));;
    mret false
  else
    call (SendMessage messages (message d));;
    mret true.

(** [for open { select { ... } }], at most [fuel] passes. *)
Fixpoint consume_for (fuel : nat) (q : Queue) (dd messages : Chan)
    (open : bool) : M unit :=
  if negb open then mret tt else
  match fuel with
  | O => out_of_fuel
  | S fuel' =>
      open' ← consume_select q dd messages;
      consume_for fuel' q dd messages open'
  end.

(** The body of the closure that [Subscribe] starts. *)
Definition consumer (fuel : nat) (g : Goroutine) : M unit :=
  consume_for fuel (g_queue g) (g_dd g) (g_messages g) true.

Definition Subscribe (q : Queue) (messages : Chan) : M error :=
  err ← bind q;
  if err is Some _ then mret err else
  '(dd, err) ← call (Channel_Consume (ex_channel (q_exchange q)) (q_name q)
                       (consumerName q) false false false false None);
  if err is Some _ then mret err else
  go {| g_queue := q; g_dd := dd; g_messages := messages |};;
  mret None.

(** [*amqp.Error] converted to [error] where [Close] returns it. *)
Definition error_of (e : option AmqpError) : error :=
  match e with
  | Some a => Some (FromAmqp a)
  | None => None
  end.

Definition Close (q : Queue) : M error :=
  err ← call (Channel_Cancel (ex_channel (q_exchange q)) (consumerName q)
                false);
  if err is Some _ then mret err else
  c ← make_chan;
  ch ← call (Channel_NotifyClose (ex_channel (q_exchange q)) c);
  Exchange.Close (q_exchange q);;
  err ← call (RecvError ch);
  if err is Some _ then mret (error_of err) else
  mret None.

End Queue.

(** ** Observations on logs *)

(** [follows e l tr]: from the history [l], the environment [e] answers the
    requests of [tr] one after the other as [tr] records them. *)
Fixpoint follows (e : Env) (l tr : list Event) : Prop :=
  match tr with
  | [] => True
  | Ev r a :: tr' => e _ l r = a /\ follows e (l ++ [Ev r a]) tr'
  end.

Definition is_CallFunc (ev : Event) : bool :=
  match ev with
  | Ev r _ => match r with CallFunc _ => true | _ => false end
  end.

Definition is_CloseChan (ev : Event) : bool :=
  match ev with
  | Ev r _ => match r with CloseChan _ => true | _ => false end
  end.

Definition is_Connection_Close (ev : Event) : bool :=
  match ev with
  | Ev r _ => match r with Connection_Close _ => true | _ => false end
  end.

Definition is_Channel_Qos (ev : Event) : bool :=
  match ev with
  | Ev r _ => match r with Channel_Qos _ _ _ _ => true | _ => false end
  end.

Definition is_Channel_Publish (ev : Event) : bool :=
  match ev with
  | Ev r _ => match r with Channel_Publish _ _ _ _ _ _ => true | _ => false end
  end.

Definition is_RecvDelivery (ev : Event) : bool :=
  match ev with
  | Ev r _ => match r with RecvDelivery _ => true | _ => false end
  end.

(** The messages handed to channel [c], in the order of the log. *)
Definition sent (c : Chan) (tr : list Event) : list Message :=
  omap (fun ev =>
          match ev with
          | Ev r a =>
              match r, a with
              | SendMessage c' m, Returned _ =>
                  if decide (c' = c) then Some m else None
              | _, _ => None
              end
          end) tr.

(** The deliveries taken from channel [c], in the order of the log. *)
Definition received (c : Chan) (tr : list Event) : list Delivery :=
  omap (fun ev =>
          match ev with
          | Ev r a =>
              match r in Request T return Outcome T -> option Delivery with
              | RecvDelivery c' => fun a =>
                  match a with
                  | Returned (d, true) =>
                      if decide (c' = c) then Some d else None
                  | _ => None
                  end
              | _ => fun _ => None
              end a
          end) tr.

(** What the log gains while the consumer forwards the deliveries [ds]. *)
Definition forwarding (dd messages : Chan) (ds : list Delivery) : list Event :=
  flat_map (fun d => [Ev (RecvDelivery dd) (Returned (d, true));
                      Ev (SendMessage messages (Queue.message d)) (Returned tt)])
           ds.

(** ** Environments to run the model on *)

Definition zero_Delivery : Delivery :=
  {| dlv_Acknowledger := None; dlv_DeliveryTag := 0; dlv_Headers := ∅;
     dlv_Body := [] |}.

(** A broker on which everything succeeds, which delivers [ds] on every
    delivery channel and then closes it (when [closes]), and which reports
    [notice] on close notifications; [on_close] is the result of closing a
    channel. *)
Definition broker (ds : list Delivery) (closes : bool) (on_close : error)
    (notice : option AmqpError) : Env :=
  fun T l r =>
    match r in Request T return Outcome T with
    | Dial _ => Returned (Some 1, None)
    | Connection_Channel _ => Returned (Some 2, None)
    | Connection_Close _ => Returned None
    | Channel_ExchangeDeclare _ _ _ _ _ _ _ _ => Returned None
    | Channel_Publish _ _ _ _ _ _ => Returned None
    | Channel_Close _ => Returned on_close
    | Channel_QueueDeclare _ name _ _ _ _ _ =>
        Returned ({| qs_Name := name; qs_Messages := 0; qs_Consumers := 0 |},
                  None)
    | Channel_Qos _ _ _ _ => Returned None
    | Channel_QueuePurge _ _ _ => Returned (0%Z, None)
    | Channel_Consume _ _ _ _ _ _ _ _ => Returned (7, None)
    | Channel_Cancel _ _ _ => Returned None
    | Channel_NotifyClose _ c => Returned c
    | Channel_QueueBind _ _ _ _ _ _ => Returned None
    | Acknowledger_Ack _ _ _ => Returned None
    | Acknowledger_Nack _ _ _ _ => Returned None
    | RecvError _ => Returned notice
    | RecvDelivery _ =>
        match ds !! length (filter (fun ev => is_RecvDelivery ev = true) l) with
        | Some d => Returned (d, true)
        | None => if closes then Returned (zero_Delivery, false) else Blocked
        end
    | SendMessage _ _ => Returned tt
    | CloseChan _ => Returned tt
    | CallFunc _ => Returned tt
    end.

(** A process that has just started: nothing logged, the package-level
    default options in place. *)
Definition start (e : Env) : World :=
  {| log := []; env := e;
     heap := {[ DefaultExchangeOptions := DefaultExchangeOptions_init ]};
     nextChan := 0; goroutines := [] |}.


(** A receive on a delivery channel that reported not-ok. *)
Definition is_closed_recv (ev : Event) : bool :=
  match ev with
  | Ev r a =>
      match r in Request T return Outcome T -> bool with
      | RecvDelivery _ => fun a =>
          match a with
          | Returned (_, false) => true
          | _ => false
          end
      | _ => fun _ => false
      end a
  end.

(** How often a [func()] value was called in a log. *)
Definition func_calls (tr : list Event) : nat :=
  length (List.filter is_CallFunc tr).

(** The shape of every run of the consumer closure: what it adds to the
    log, and how it ends.  It forwards deliveries one by one; it stops when
    the fuel is used up, when the receive or the send does not return, or
    after the receive reported not-ok and the callback was called. *)
Inductive consumer_run (cb : option Func) (dd messages : Chan)
  : list Event -> Outcome unit -> Prop :=
| cr_out_of_fuel :
    consumer_run cb dd messages [] OutOfFuel
| cr_recv_stuck (a : Outcome (Delivery * bool)) :
    (forall p, a <> Returned p) ->
    consumer_run cb dd messages [Ev (RecvDelivery dd) a] ((fun _ => tt) <$> a)
| cr_send_stuck (d : Delivery) (a : Outcome unit) :
    (forall u, a <> Returned u) ->
    consumer_run cb dd messages
      [Ev (RecvDelivery dd) (Returned (d, true));
       Ev (SendMessage messages (Queue.message d)) a] a
| cr_forward (d : Delivery) (tr : list Event) (o : Outcome unit) :
    consumer_run cb dd messages tr o ->
    consumer_run cb dd messages
      (Ev (RecvDelivery dd) (Returned (d, true))
       :: Ev (SendMessage messages (Queue.message d)) (Returned tt) :: tr) o
| cr_disconnect (d : Delivery) (a : Outcome unit) :
    consumer_run cb dd messages
      [Ev (RecvDelivery dd) (Returned (d, false)); Ev (CallFunc cb) a] a.

(** A computation [grows] the log when all it does to it is append. *)
Definition grows {A} (m : M A) : Prop :=
  forall w, exists tr, log (after m w) = log w ++ tr.

(** ** Concrete inputs *)

Definition boom : Err := ErrorString "boom".

(** An exchange as [NewExchange] returns it, with a caller's callback. *)
Definition live_exchange : Exchange :=
  {| ex_Name := "hutch"; ex_connection := Some 1; ex_channel := Some 2;
     ex_onDisconnect := Some (Closure 0) |}.

(** The same exchange with the default callback. *)
Definition default_exchange : Exchange :=
  {| ex_Name := "hutch"; ex_connection := Some 1; ex_channel := Some 2;
     ex_onDisconnect := Some DefaultOnDisconnect |}.

(** [&Exchange{}]. *)
Definition zero_exchange : Exchange :=
  {| ex_Name := ""; ex_connection := None; ex_channel := None;
     ex_onDisconnect := None |}.

Definition test_queue : Queue :=
  {| q_exchange := live_exchange; q_routingKey := "amqptest.messages";
     q_name := "amqptest.queue" |}.

Definition default_queue : Queue :=
  {| q_exchange := default_exchange; q_routingKey := "amqptest.messages";
     q_name := "amqptest.queue" |}.

Definition delivery1 : Delivery :=
  {| dlv_Acknowledger := Some 2; dlv_DeliveryTag := 1;
     dlv_Headers := {[ "request_id"%string := VString "a" ]};
     dlv_Body := list_byte_of_string "0" |}.

Definition delivery2 : Delivery :=
  {| dlv_Acknowledger := Some 2; dlv_DeliveryTag := 2;
     dlv_Headers := {[ "request_id"%string := VString "b" ]};
     dlv_Body := list_byte_of_string "1" |}.

(** Options as the tests pass them, with ten deliveries of prefetch. *)
Definition prefetch_options : QueueOptions :=
  {| qo_Durable := true; qo_AutoDelete := true;
     qo_RoutingKey := "amqptest.messages"; qo_PrefetchCount := 10;
     qo_PrefetchSize := 0 |}.

(** A broker that delivers two messages and then closes the stream. *)
Definition two_then_closed : Env :=
  broker [delivery1; delivery2] true None None.

(** A broker on which closing a channel fails. *)
Definition close_fails : Env := broker [] true (Some boom) None.

(** A broker that refuses every cancel, declare and bind, and is
    [two_then_closed] otherwise. *)
Definition refusing : Env :=
  fun T l r =>
    match r in Request T return Outcome T with
    | Channel_Cancel _ _ _ => Returned (Some boom)
    | Channel_QueueBind _ _ _ _ _ _ => Returned (Some boom)
    | Channel_QueueDeclare _ name _ _ _ _ _ =>
        Returned ({| qs_Name := name; qs_Messages := 0; qs_Consumers := 0 |},
                  Some boom)
    | r' => two_then_closed _ l r'
    end.

(** Caller's options without a callback, at address 5 of the heap. *)
Definition bare_options : ExchangeOptions :=
  {| eo_Name := "events"; eo_Type := "fanout"; eo_Durable := false;
     eo_AutoDelete := true; eo_OnDisconnect := None |}.

Definition with_bare_options (e : Env) : World :=
  set_heap (<[5 := bare_options]> (heap (start e))) (start e).

(** ** Further observations *)

Definition is_Channel_Close (ev : Event) : bool :=
  match ev with
  | Ev r _ => match r with Channel_Close _ => true | _ => false end
  end.

(** A call into the client library, as opposed to an operation of the Go
    runtime (channel operation, call of a function value). *)
Definition is_library (ev : Event) : bool :=
  match ev with
  | Ev r _ =>
      match r with
      | RecvError _ | RecvDelivery _ | SendMessage _ _ | CloseChan _
      | CallFunc _ => false
      | _ => true
      end
  end.

(** The three library calls with which [NewExchange] sets an exchange up. *)
Definition is_setup (ev : Event) : bool :=
  match ev with
  | Ev r _ =>
      match r with
      | Dial _ | Connection_Channel _
      | Channel_ExchangeDeclare _ _ _ _ _ _ _ _ => true
      | _ => false
      end
  end.

(** The two library calls of [NewQueue]. *)
Definition is_declare_or_qos (ev : Event) : bool :=
  match ev with
  | Ev r _ =>
      match r with
      | Channel_QueueDeclare _ _ _ _ _ _ _ | Channel_Qos _ _ _ _ => true
      | _ => false
      end
  end.

(** [emits P m]: whatever the world, all [m] does to the log is append
    events that satisfy [P]. *)
Definition emits (P : Event -> Prop) {A} (m : M A) : Prop :=
  forall w, exists tr, log (after m w) = log w ++ tr /\ Forall P tr.

(** The struct a fresh [NullAcknowledger] has become after the calls
    [cs]. *)
Definition NullAcknowledger_reached (cs : list AckCall) : NullAcknowledger :=
  (NullAcknowledger_calls cs NullAcknowledger.new).2.

(** The library request behind a call on a network [acknowledger]. *)
Definition acknowledger_request (d : acknowledger) (c : AckCall)
  : Request error :=
  match c with
  | CallAck =>
      Acknowledger_Ack (ack_Acknowledger d) (ack_deliveryTag d) false
  | CallNack requeue =>
      Acknowledger_Nack (ack_Acknowledger d) (ack_deliveryTag d) false requeue
  end.

Definition acknowledger_call (c : AckCall) (d : acknowledger) : M error :=
  match c with
  | CallAck => acknowledger_.Ack d
  | CallNack requeue => acknowledger_.Nack d requeue
  end.

(** A caller making the calls [cs] on one network [acknowledger], one after
    the other. *)
Fixpoint acknowledger_calls (cs : list AckCall) (d : acknowledger)
  : M (list error) :=
  match cs with
  | [] => mret []
  | c :: cs' =>
      e ← acknowledger_call c d;
      es ← acknowledger_calls cs' d;
      mret (e :: es)
  end.









(** A broker with one delivery for a reader that never reads. *)
Definition reader_gone : Env :=
  fun T l r =>
    match r in Request T return Outcome T with
    | SendMessage _ _ => Blocked
    | r' => broker [delivery1] true None None _ l r'
    end.

(** * Proofs *)

(** ** The monad and the log *)

Lemma bind_Returned {A B} (m : M A) (k : A -> M B) w a w' :
  m w = (Returned a, w') -> (m ≫= k) w = k a w'.
Proof. intros H. unfold mbind, M_bind. by rewrite H. Qed.

Lemma call_run {T} (r : Request T) w :
  call r w = (answer w r, set_log (log w ++ [Ev r (answer w r)]) w).
Proof. reflexivity. Qed.

Lemma after_call {T} (r : Request T) w :
  after (call r) w = set_log (log w ++ [Ev r (answer w r)]) w.
Proof. reflexivity. Qed.

Lemma log_after_call {T} (r : Request T) w :
  log (after (call r) w) = log w ++ [Ev r (answer w r)].
Proof. reflexivity. Qed.

Lemma set_log_twice l l' w : set_log l' (set_log l w) = set_log l' w.
Proof. reflexivity. Qed.

Lemma set_log_same w : set_log (log w) w = w.
Proof. by destruct w. Qed.

(** When a run only appended [tr] to the log, [tr] is its trace. *)
Lemma trace_of_log {A} (m : M A) w tr :
  log (m w).2 = log w ++ tr -> trace m w = tr.
Proof. intros H. unfold trace. rewrite H. apply drop_app_length. Qed.

Lemma follows_app e l tr1 tr2 :
  follows e l (tr1 ++ tr2) <-> follows e l tr1 /\ follows e (l ++ tr1) tr2.
Proof.
  revert l. induction tr1 as [|[T r a] tr1 IH]; intros l; simpl.
  - rewrite app_nil_r. tauto.
  - rewrite IH, <- app_assoc. simpl. tauto.
Qed.

(** ** NullAcknowledger *)

Lemma NullAcknowledger_call_acked c a :
  na_acked a = true -> NullAcknowledger_call c a = (Some ErrAlreadyAcked, a).
Proof.
  intros H. destruct c; simpl;
    unfold NullAcknowledger.Ack, NullAcknowledger.Nack; by rewrite H.
Qed.

Lemma NullAcknowledger_call_ok c a :
  (NullAcknowledger_call c a).1 = None ->
  na_acked (NullAcknowledger_call c a).2 = true.
Proof.
  destruct c; simpl; unfold NullAcknowledger.Ack, NullAcknowledger.Nack;
    destruct (na_acked a); simpl; congruence.
Qed.

Lemma NullAcknowledger_calls_acked cs a :
  na_acked a = true ->
  NullAcknowledger_calls cs a
  = (replicate (length cs) (Some ErrAlreadyAcked), a).
Proof.
  intros H. induction cs as [|c cs IH]; simpl; [done|].
  by rewrite (NullAcknowledger_call_acked c a H), IH.
Qed.

(** C3. Once one call of [Ack] or [Nack] on a [NullAcknowledger] has
    succeeded, every later call, whichever method and whichever requeue
    flag, returns [ErrAlreadyAcked], and neither the recorded
    [Acknowledgement] nor [acked] changes: after any sequence [cs] of later
    calls the struct is the one the successful call left. *)
Theorem NullAcknowledger_terminal_once (a : NullAcknowledger) (c : AckCall)
    (cs : list AckCall) :
  (NullAcknowledger_call c a).1 = None ->
  let a1 := (NullAcknowledger_call c a).2 in
  (NullAcknowledger_calls cs a1).1
  = replicate (length cs) (Some ErrAlreadyAcked) /\
  (NullAcknowledger_calls cs a1).2 = a1 /\
  forall c', NullAcknowledger_call c' a1 = (Some ErrAlreadyAcked, a1).
Proof.
  intros Hok a1.
  assert (Hacked : na_acked a1 = true) by by apply NullAcknowledger_call_ok.
  rewrite (NullAcknowledger_calls_acked cs a1 Hacked). simpl.
  repeat split. intros c'. by apply NullAcknowledger_call_acked.
Qed.

Lemma NullAcknowledger_terminal_once_witness :
  let a1 := (NullAcknowledger_call (CallNack true) NullAcknowledger.new).2 in
  (NullAcknowledger_calls [CallAck; CallNack false; CallNack true] a1).1
  = replicate 3 (Some ErrAlreadyAcked) /\
  (NullAcknowledger_calls [CallAck; CallNack false; CallNack true] a1).2 = a1 /\
  forall c', NullAcknowledger_call c' a1 = (Some ErrAlreadyAcked, a1).
Proof.
  apply (NullAcknowledger_terminal_once NullAcknowledger.new (CallNack true)
           [CallAck; CallNack false; CallNack true]).
  reflexivity.
Defined.

(** C4. A fresh [NullAcknowledger] reports [Unacknowledged]; on it a first
    [Ack] succeeds and records [Acked], a first [Nack(true)] succeeds and
    records [Requeued], a first [Nack(false)] succeeds and records
    [Dropped]. *)
Theorem NullAcknowledger_first_call :
  na_Acknowledgement NullAcknowledger.new = Unacknowledged /\
  (NullAcknowledger.Ack NullAcknowledger.new).1 = None /\
  na_Acknowledgement (NullAcknowledger.Ack NullAcknowledger.new).2 = Acked /\
  (NullAcknowledger.Nack NullAcknowledger.new true).1 = None /\
  na_Acknowledgement (NullAcknowledger.Nack NullAcknowledger.new true).2
  = Requeued /\
  (NullAcknowledger.Nack NullAcknowledger.new false).1 = None /\
  na_Acknowledgement (NullAcknowledger.Nack NullAcknowledger.new false).2
  = Dropped.
Proof. repeat split. Qed.

(** ** Exchange *)

(** The run of [Close], by cases on what closing the channel returns. *)
Lemma Exchange_Close_run e w :
  let r1 := Channel_Close (ex_channel e) in
  let r2 := Connection_Close (ex_connection e) in
  let w1 := after (call r1) w in
  Exchange.Close e w =
  match answer w r1 with
  | Returned None => (answer w1 r2, after (call r2) w1)
  | Returned (Some err) => (Returned (Some err), w1)
  | Blocked => (Blocked, w1)
  | Panicked msg => (Panicked msg, w1)
  | OutOfFuel => (OutOfFuel, w1)
  end.
Proof.
  intros r1 r2 w1. unfold Exchange.Close, mbind, M_bind.
  rewrite call_run. subst w1. rewrite after_call. fold r1.
  destruct (answer w r1) as [[err|]| | |]; reflexivity.
Qed.

(** [Close] only appends to the log. *)
Lemma Exchange_Close_log e w :
  log (after (Exchange.Close e) w) = log w ++ trace (Exchange.Close e) w.
Proof.
  unfold after, trace. rewrite Exchange_Close_run.
  destruct (answer w (Channel_Close (ex_channel e))) as [[err|]| | |]; simpl;
    rewrite <- ?app_assoc, drop_app_length; reflexivity.
Qed.

(** C5. [Exchange.Close] closes the channel first; when that returns a
    non-nil error, [Close] returns this error and the log gains nothing
    else, so closing the connection is never attempted; when it returns nil,
    the connection is closed next and [Close] returns whatever that
    returns. *)
Theorem Exchange_Close_channel_then_connection (e : Exchange) (w : World) :
  let r1 := Channel_Close (ex_channel e) in
  let r2 := Connection_Close (ex_connection e) in
  let w1 := after (call r1) w in
  (exists tl, trace (Exchange.Close e) w = Ev r1 (answer w r1) :: tl) /\
  (forall err, answer w r1 = Returned (Some err) ->
     outcome (Exchange.Close e) w = Returned (Some err) /\
     trace (Exchange.Close e) w = [Ev r1 (Returned (Some err))] /\
     existsb is_Connection_Close (trace (Exchange.Close e) w) = false) /\
  (answer w r1 = Returned None ->
     outcome (Exchange.Close e) w = answer w1 r2 /\
     trace (Exchange.Close e) w
     = [Ev r1 (Returned None); Ev r2 (answer w1 r2)]).
Proof.
  intros r1 r2 w1.
  pose proof (Exchange_Close_run e w) as Hrun. cbv zeta in Hrun.
  fold r1 r2 w1 in Hrun.
  split; [|split].
  - exists (match answer w r1 with
            | Returned None => [Ev r2 (answer w1 r2)]
            | _ => []
            end).
    apply trace_of_log. rewrite Hrun.
    destruct (answer w r1) as [[err|]| | |] eqn:Ha; cbn [snd];
      rewrite ?after_call; subst w1; rewrite log_after_call, ?Ha;
      cbn [log set_log]; rewrite <- ?app_assoc; reflexivity.
  - intros err Ha. rewrite Ha in Hrun.
    assert (Htr : trace (Exchange.Close e) w = [Ev r1 (Returned (Some err))]).
    { apply trace_of_log. rewrite Hrun. subst w1. cbn [snd].
      by rewrite log_after_call, Ha. }
    unfold outcome. rewrite Htr, Hrun. done.
  - intros Ha. rewrite Ha in Hrun. split.
    + unfold outcome. by rewrite Hrun.
    + apply trace_of_log. rewrite Hrun. cbn [snd].
      rewrite log_after_call. subst w1. rewrite log_after_call, Ha.
      rewrite <- app_assoc. reflexivity.
Qed.

Lemma Exchange_publish_run e rk m rid mode w :
  Exchange.publish e rk m rid mode w =
  match ex_channel e with
  | None => (Returned (Some (ErrorString "channel is nil")), w)
  | Some _ =>
      call (Channel_Publish (ex_channel e) (ex_Name e) rk false false
              {| pub_Headers := {[ "request_id"%string := VString rid ]};
                 pub_ContentType := "application/json";
                 pub_Body := list_byte_of_string m;
                 pub_DeliveryMode := mode;
                 pub_Priority := 0 |}) w
  end.
Proof. unfold Exchange.publish. by destruct (ex_channel e). Qed.

Lemma trace_call {T} (r : Request T) w :
  trace (call r) w = [Ev r (answer w r)].
Proof. apply trace_of_log. reflexivity. Qed.

(** C7. [Publish] builds a message with delivery mode persistent, content
    type "application/json", the single header "request_id" holding the
    request id, priority 0 and the bytes of the message string as body;
    [PublishTransient] builds the same message with delivery mode
    transient.  On an exchange whose channel is nil both return the error
    "channel is nil" and leave the world as it is, so nothing is published;
    otherwise each makes exactly one library call, the publish of that
    message on the exchange's name with the routing key, not mandatory and
    not immediate, and returns what that call returns. *)
Theorem Exchange_Publish_wire_shape (e : Exchange)
    (routingKey message requestID : string) (w : World) :
  let msg mode :=
    {| pub_Headers := {[ "request_id"%string := VString requestID ]};
       pub_ContentType := "application/json";
       pub_Body := list_byte_of_string message;
       pub_DeliveryMode := mode;
       pub_Priority := 0 |} in
  let req mode :=
    Channel_Publish (ex_channel e) (ex_Name e) routingKey false false
      (msg mode) in
  let P := Exchange.Publish e routingKey message requestID in
  let PT := Exchange.PublishTransient e routingKey message requestID in
  (size (pub_Headers (msg Persistent)) = 1 /\
   pub_Headers (msg Persistent) !! "request_id"%string
   = Some (VString requestID)) /\
  (ex_channel e = None ->
     outcome P w = Returned (Some (ErrorString "channel is nil")) /\
     after P w = w /\
     existsb is_Channel_Publish (trace P w) = false /\
     outcome PT w = Returned (Some (ErrorString "channel is nil")) /\
     after PT w = w /\
     existsb is_Channel_Publish (trace PT w) = false) /\
  (ex_channel e <> None ->
     outcome P w = answer w (req Persistent) /\
     trace P w = [Ev (req Persistent) (answer w (req Persistent))] /\
     outcome PT w = answer w (req Transient) /\
     trace PT w = [Ev (req Transient) (answer w (req Transient))]).
Proof.
  intros msg req P PT. split; [|split].
  - split; [apply map_size_singleton | apply lookup_singleton_eq].
  - intros Hnil. subst P PT.
    unfold outcome, after, trace, Exchange.Publish, Exchange.PublishTransient.
    rewrite !Exchange_publish_run, Hnil. cbn [fst snd].
    by rewrite drop_all.
  - intros Hlive. subst P PT msg req. cbv beta.
    unfold outcome, Exchange.Publish, Exchange.PublishTransient.
    unfold trace at 1 2. rewrite !Exchange_publish_run.
    destruct (ex_channel e) as [ch|] eqn:Hch; [|done].
    repeat split; first [reflexivity | exact (trace_call _ w)].
Qed.

(** ** Queue *)

Lemma bind_call {T B} (r : Request T) (k : T -> M B) w :
  (call r ≫= k) w =
  match answer w r with
  | Returned a => k a (after (call r) w)
  | Blocked => (Blocked, after (call r) w)
  | Panicked msg => (Panicked msg, after (call r) w)
  | OutOfFuel => (OutOfFuel, after (call r) w)
  end.
Proof.
  unfold mbind, M_bind. rewrite call_run, after_call.
  by destruct (answer w r).
Qed.

Lemma bind_call_mret {T B} (r : Request T) (f : T -> B) w :
  (call r ≫= fun x => mret (f x)) w = (f <$> answer w r, after (call r) w).
Proof. rewrite bind_call. by destruct (answer w r). Qed.

(** The run of [NewQueue], by cases on what the library returns. *)
Lemma Queue_NewQueue_run queueName exchange options w :
  let o := match options with None => DefaultQueueOptions | Some o => o end in
  let r1 := Channel_QueueDeclare (ex_channel exchange) queueName
              (qo_Durable o) (qo_AutoDelete o) false false None in
  let r2 := Channel_Qos (ex_channel exchange) (qo_PrefetchCount o)
              (qo_PrefetchSize o) false in
  let w1 := after (call r1) w in
  let q := {| q_exchange := exchange; q_routingKey := qo_RoutingKey o;
              q_name := queueName |} in
  Queue.NewQueue queueName exchange options w =
  match answer w r1 with
  | Returned (_, Some err) => (Returned (None, Some err), w1)
  | Returned (_, None) =>
      if (0 <? qo_PrefetchCount o)%Z || (0 <? qo_PrefetchSize o)%Z then
        match answer w1 r2 with
        | Returned (Some err) => (Returned (None, Some err), after (call r2) w1)
        | Returned None => (Returned (Some q, None), after (call r2) w1)
        | Blocked => (Blocked, after (call r2) w1)
        | Panicked msg => (Panicked msg, after (call r2) w1)
        | OutOfFuel => (OutOfFuel, after (call r2) w1)
        end
      else (Returned (Some q, None), w1)
  | Blocked => (Blocked, w1)
  | Panicked msg => (Panicked msg, w1)
  | OutOfFuel => (OutOfFuel, w1)
  end.
Proof.
  intros o r1 r2 w1 q. unfold Queue.NewQueue. cbv zeta. fold o.
  rewrite bind_call. fold r1 w1.
  destruct (answer w r1) as [[qs [err|]]| | |]; try reflexivity.
  destruct ((0 <? qo_PrefetchCount o)%Z || (0 <? qo_PrefetchSize o)%Z);
    [|reflexivity].
  rewrite bind_call. fold r2.
  destruct (answer w1 r2) as [[err|]| | |]; reflexivity.
Qed.

Lemma prefetch_positive (count size : Z) :
  (0 <? count)%Z || (0 <? size)%Z = true <-> (0 < count \/ 0 < size)%Z.
Proof. rewrite orb_true_iff, !Z.ltb_lt. tauto. Qed.

(** C8. [NewQueue] first declares the queue with the options' durable and
    auto-delete flags, exclusive false and no-wait false; with nil options
    these are durable true and auto-delete false, and the routing key of the
    queue is empty.  When the declaration fails, no queue is returned
    together with that error, and nothing else is called.  When it succeeds,
    the QoS call is made if and only if the prefetch count or the prefetch
    size is positive; it carries these two numbers (and global false); when
    it fails no queue is returned together with its error. *)
Theorem NewQueue_declare_then_qos (queueName : string) (exchange : Exchange)
    (options : option QueueOptions) (w : World) :
  let o := match options with None => DefaultQueueOptions | Some o => o end in
  let r1 := Channel_QueueDeclare (ex_channel exchange) queueName
              (qo_Durable o) (qo_AutoDelete o) false false None in
  let r2 := Channel_Qos (ex_channel exchange) (qo_PrefetchCount o)
              (qo_PrefetchSize o) false in
  let w1 := after (call r1) w in
  let q := {| q_exchange := exchange; q_routingKey := qo_RoutingKey o;
              q_name := queueName |} in
  let run := Queue.NewQueue queueName exchange options in
  (options = None ->
     r1 = Channel_QueueDeclare (ex_channel exchange) queueName true false
            false false None /\
     q_routingKey q = ""%string) /\
  (exists tl, trace run w = Ev r1 (answer w r1) :: tl) /\
  (forall qs err, answer w r1 = Returned (qs, Some err) ->
     outcome run w = Returned (None, Some err) /\
     trace run w = [Ev r1 (answer w r1)]) /\
  (forall qs, answer w r1 = Returned (qs, None) ->
     (existsb is_Channel_Qos (trace run w) = true <->
      (0 < qo_PrefetchCount o \/ 0 < qo_PrefetchSize o)%Z) /\
     ((0 < qo_PrefetchCount o \/ 0 < qo_PrefetchSize o)%Z ->
      trace run w = [Ev r1 (answer w r1); Ev r2 (answer w1 r2)] /\
      (forall err, answer w1 r2 = Returned (Some err) ->
         outcome run w = Returned (None, Some err)) /\
      (answer w1 r2 = Returned None ->
         outcome run w = Returned (Some q, None))) /\
     (~ (0 < qo_PrefetchCount o \/ 0 < qo_PrefetchSize o)%Z ->
      trace run w = [Ev r1 (answer w r1)] /\
      outcome run w = Returned (Some q, None))).
Proof.
  intros o r1 r2 w1 q run.
  pose proof (Queue_NewQueue_run queueName exchange options w) as Hrun.
  cbv zeta in Hrun. fold o r1 r2 w1 q run in Hrun.
  assert (Hw1 : log w1 = log w ++ [Ev r1 (answer w r1)]) by reflexivity.
  assert (Hw2 : log (after (call r2) w1)
                = log w ++ [Ev r1 (answer w r1); Ev r2 (answer w1 r2)]).
  { rewrite log_after_call, Hw1, <- app_assoc. reflexivity. }
  pose proof (prefetch_positive (qo_PrefetchCount o) (qo_PrefetchSize o))
    as Hpos.
  split; [|split; [|split]].
  - intros ->. split; reflexivity.
  - exists (match answer w r1 with
            | Returned (_, None) =>
                if (0 <? qo_PrefetchCount o)%Z || (0 <? qo_PrefetchSize o)%Z
                then [Ev r2 (answer w1 r2)] else []
            | _ => []
            end).
    apply trace_of_log. rewrite Hrun.
    destruct (answer w r1) as [[qs [err|]]| | |] eqn:Ha; cbn [snd];
      rewrite ?Hw1; try reflexivity.
    destruct ((0 <? qo_PrefetchCount o)%Z || (0 <? qo_PrefetchSize o)%Z);
      [|cbn [snd]; by rewrite Hw1].
    destruct (answer w1 r2) as [[err|]| | |]; cbn [snd]; by rewrite Hw2.
  - intros qs err Ha. rewrite Ha in Hrun. unfold outcome. rewrite Hrun.
    split; [done|]. apply trace_of_log. by rewrite Hrun.
  - intros qs Ha. rewrite Ha in Hrun.
    assert (Hyes : (0 < qo_PrefetchCount o \/ 0 < qo_PrefetchSize o)%Z ->
                   trace run w = [Ev r1 (answer w r1); Ev r2 (answer w1 r2)]).
    { intros Hp. apply Hpos in Hp. rewrite Hp in Hrun.
      apply trace_of_log. rewrite Hrun.
      destruct (answer w1 r2) as [[err|]| | |]; cbn [snd]; by rewrite Hw2. }
    assert (Hno : ~ (0 < qo_PrefetchCount o \/ 0 < qo_PrefetchSize o)%Z ->
                  trace run w = [Ev r1 (answer w r1)]).
    { intros Hp. rewrite <- Hpos in Hp. apply not_true_is_false in Hp.
      rewrite Hp in Hrun. apply trace_of_log. by rewrite Hrun. }
    split; [|split].
    + split.
      * intros Hq.
        destruct (decide (0 < qo_PrefetchCount o \/ 0 < qo_PrefetchSize o)%Z)
          as [Hp|Hp]; [done|].
        rewrite (Hno Hp) in Hq. discriminate Hq.
      * intros Hp. rewrite (Hyes Hp). reflexivity.
    + intros Hp. split; [by apply Hyes|].
      apply Hpos in Hp. rewrite Hp in Hrun. unfold outcome. rewrite Hrun.
      split.
      * intros err Hb. by rewrite Hb.
      * intros Hb. by rewrite Hb.
    + intros Hp. split; [by apply Hno|].
      rewrite <- Hpos in Hp. apply not_true_is_false in Hp.
      rewrite Hp in Hrun. unfold outcome. by rewrite Hrun.
Qed.

Lemma grows_mret {A} (a : A) : grows (mret a).
Proof. intros w. exists []. by rewrite app_nil_r. Qed.

Lemma grows_call {T} (r : Request T) : grows (call r).
Proof. intros w. by exists [Ev r (answer w r)]. Qed.

Lemma grows_bind {A B} (m : M A) (k : A -> M B) :
  grows m -> (forall a, grows (k a)) -> grows (m ≫= k).
Proof.
  intros Hm Hk w. destruct (Hm w) as [tr1 H1]. unfold after in *.
  unfold mbind, M_bind. destruct (m w) as [[a| | |] w1]; simpl in *;
    try by exists tr1.
  destruct (Hk a w1) as [tr2 H2]. exists (tr1 ++ tr2).
  unfold after in H2. by rewrite H2, H1, app_assoc.
Qed.

Lemma grows_make_chan : grows make_chan.
Proof. intros w. exists []. by rewrite app_nil_r. Qed.

Lemma grows_Exchange_Close e : grows (Exchange.Close e).
Proof. intros w. eexists. apply Exchange_Close_log. Qed.

(** A computation that starts with a call starts its trace with it. *)
Lemma trace_bind_call {T B} (r : Request T) (k : T -> M B) w :
  (forall a, grows (k a)) ->
  exists tl, trace (call r ≫= k) w = Ev r (answer w r) :: tl.
Proof.
  intros Hk. unfold trace. rewrite bind_call.
  destruct (answer w r) as [a| | |] eqn:Ha;
    try (exists []; rewrite after_call, Ha; cbn [snd log set_log];
         by rewrite drop_app_length).
  destruct (Hk a (after (call r) w)) as [tr Htr]. exists tr.
  unfold after in Htr at 1. rewrite Htr, log_after_call, Ha, <- app_assoc.
  by rewrite drop_app_length.
Qed.


(** The run of [Queue.Close] once the consumer is cancelled, the
    notification channel registered and the exchange closed. *)
Lemma Queue_Close_cancelled q w ch x :
  let ex := q_exchange q in
  let r1 := Channel_Cancel (ex_channel ex) (q_name q) false in
  let w2 := after make_chan (after (call r1) w) in
  let r3 := Channel_NotifyClose (ex_channel ex) (nextChan w) in
  let w3 := after (call r3) w2 in
  let w4 := after (Exchange.Close ex) w3 in
  answer w r1 = Returned None ->
  answer w2 r3 = Returned ch ->
  outcome (Exchange.Close ex) w3 = Returned x ->
  Queue.Close q w
  = (Queue.error_of <$> answer w4 (RecvError ch),
     after (call (RecvError ch)) w4).
Proof.
  intros ex r1 w2 r3 w3 w4 H1 H3 Hx.
  unfold Queue.Close, Queue.consumerName. rewrite bind_call.
  fold ex r1. rewrite H1.
  rewrite (bind_Returned make_chan _ _ (nextChan w) w2) by reflexivity.
  rewrite bind_call. fold r3. rewrite H3. fold w3.
  rewrite (bind_Returned (Exchange.Close ex) _ w3 x w4).
  2:{ unfold outcome in Hx. subst w4. unfold after.
      destruct (Exchange.Close ex w3). simpl in *. by subst. }
  rewrite bind_call.
  destruct (answer w4 (RecvError ch)) as [[a|]| | |]; reflexivity.
Qed.

Lemma Queue_Close_cancelled_trace q w ch x :
  let ex := q_exchange q in
  let r1 := Channel_Cancel (ex_channel ex) (q_name q) false in
  let w2 := after make_chan (after (call r1) w) in
  let r3 := Channel_NotifyClose (ex_channel ex) (nextChan w) in
  let w3 := after (call r3) w2 in
  let w4 := after (Exchange.Close ex) w3 in
  answer w r1 = Returned None ->
  answer w2 r3 = Returned ch ->
  outcome (Exchange.Close ex) w3 = Returned x ->
  trace (Queue.Close q) w
  = [Ev r1 (Returned None); Ev r3 (Returned ch)]
    ++ trace (Exchange.Close ex) w3
    ++ [Ev (RecvError ch) (answer w4 (RecvError ch))].
Proof.
  intros ex r1 w2 r3 w3 w4 H1 H3 Hx. apply trace_of_log.
  pose proof (Queue_Close_cancelled q w ch x H1 H3 Hx) as Hrun.
  cbv zeta in Hrun. fold ex r1 w2 r3 w3 w4 in Hrun. rewrite Hrun.
  cbn [snd]. rewrite log_after_call. subst w4.
  rewrite Exchange_Close_log. subst w3. rewrite log_after_call, H3.
  subst w2. change (log (after make_chan (after (call r1) w)))
    with (log (after (call r1) w)).
  rewrite log_after_call, H1, <- !app_assoc. reflexivity.
Qed.

Lemma grows_Queue_Close_rest q c :
  grows (ch ← call (Channel_NotifyClose (ex_channel (q_exchange q)) c);
         Exchange.Close (q_exchange q);;
         err ← call (RecvError ch);
         if err is Some _ then mret (Queue.error_of err) else mret None).
Proof.
  apply grows_bind; [apply grows_call|]. intros ch.
  apply grows_bind; [apply grows_Exchange_Close|]. intros _.
  apply grows_bind; [apply grows_call|]. intros [a|]; apply grows_mret.
Qed.


(** C9. When the cancellation succeeds, the error that closing the exchange
    returns is dropped: whatever [Exchange.Close] returned, a failure of the
    channel or of the connection included, the result of [Queue.Close] is
    decided by the close notification alone, and it is nil as soon as the
    notification yields nil. *)
Theorem Queue_Close_discards_exchange_error (q : Queue) (w : World)
    (ch : Chan) (x : error) :
  let ex := q_exchange q in
  let r1 := Channel_Cancel (ex_channel ex) (q_name q) false in
  let w2 := after make_chan (after (call r1) w) in
  let r3 := Channel_NotifyClose (ex_channel ex) (nextChan w) in
  let w3 := after (call r3) w2 in
  let w4 := after (Exchange.Close ex) w3 in
  answer w r1 = Returned None ->
  answer w2 r3 = Returned ch ->
  outcome (Exchange.Close ex) w3 = Returned x ->
  outcome (Queue.Close q) w = Queue.error_of <$> answer w4 (RecvError ch) /\
  (answer w4 (RecvError ch) = Returned None ->
   outcome (Queue.Close q) w = Returned None).
Proof.
  intros ex r1 w2 r3 w3 w4 H1 H3 Hx.
  pose proof (Queue_Close_cancelled q w ch x H1 H3 Hx) as Hrun.
  cbv zeta in Hrun. fold ex r1 w2 r3 w3 w4 in Hrun.
  unfold outcome. rewrite Hrun. split; [done|]. by intros ->.
Qed.

(** ** The consumer closure *)

Lemma invoke_run f w :
  invoke f w
  = (func_outcome f w, set_log (log w ++ [Ev (CallFunc f) (func_outcome f w)]) w).
Proof. reflexivity. Qed.

(** One pass through the [select], by cases on what the receive returns. *)
Lemma consume_select_run q dd messages w :
  let cb := ex_onDisconnect (q_exchange q) in
  let w1 := after (call (RecvDelivery dd)) w in
  Queue.consume_select q dd messages w =
  match answer w (RecvDelivery dd) with
  | Returned (d, true) =>
      ((fun _ => true) <$> answer w1 (SendMessage messages (Queue.message d)),
       after (call (SendMessage messages (Queue.message d))) w1)
  | Returned (d, false) =>
      ((fun _ => false) <$> func_outcome cb w1, after (invoke cb) w1)
  | Blocked => (Blocked, w1)
  | Panicked msg => (Panicked msg, w1)
  | OutOfFuel => (OutOfFuel, w1)
  end.
Proof.
  intros cb w1. unfold Queue.consume_select. rewrite bind_call. fold w1.
  destruct (answer w (RecvDelivery dd)) as [[d [|]]| | |]; try reflexivity.
  - cbn [negb]. apply (bind_call_mret _ (fun _ => true)).
  - cbn [negb]. unfold mbind, M_bind. rewrite invoke_run. fold cb.
    unfold after. rewrite invoke_run.
    by destruct (func_outcome cb w1).
Qed.

Lemma consume_for_closed fuel q dd messages w :
  Queue.consume_for fuel q dd messages false w = (Returned tt, w).
Proof. by destruct fuel. Qed.

Lemma consume_for_step fuel q dd messages w :
  Queue.consume_for (S fuel) q dd messages true w
  = (Queue.consume_select q dd messages
       ≫= Queue.consume_for fuel q dd messages) w.
Proof. reflexivity. Qed.

(** While the environment hands over the deliveries [ds] and takes the
    messages, the loop forwards them, one pass each. *)
Lemma consume_for_forwarding q dd messages ds : forall w fuel,
  follows (env w) (log w) (forwarding dd messages ds) ->
  Queue.consume_for (length ds + fuel) q dd messages true w
  = Queue.consume_for fuel q dd messages true
      (set_log (log w ++ forwarding dd messages ds) w).
Proof.
  induction ds as [|d ds IH]; intros w fuel Hf.
  - cbn. by rewrite app_nil_r, set_log_same.
  - cbn [length Nat.add]. rewrite consume_for_step.
    cbn in Hf. destruct Hf as (Hrecv & Hsend & Hrest).
    assert (Hsel : Queue.consume_select q dd messages w
                   = (Returned true,
                      set_log ((log w
                                ++ [Ev (RecvDelivery dd) (Returned (d, true))])
                                ++ [Ev (SendMessage messages (Queue.message d))
                                       (Returned tt)]) w)).
    { rewrite consume_select_run. unfold answer at 1. rewrite Hrecv.
      rewrite !after_call. unfold answer. cbn [log env set_log].
      rewrite Hrecv, Hsend. reflexivity. }
    rewrite (bind_Returned _ _ _ _ _ Hsel).
    rewrite IH by exact Hrest.
    cbn [log set_log]. rewrite set_log_twice.
    unfold forwarding. cbn [flat_map]. by rewrite <- !app_assoc.
Qed.

(** Every run of the loop, in every environment and with any fuel, has the
    shape [consumer_run]. *)
Lemma consume_for_shape q dd messages fuel : forall w,
  exists tr o,
    Queue.consume_for fuel q dd messages true w
    = (o, set_log (log w ++ tr) w) /\
    consumer_run (ex_onDisconnect (q_exchange q)) dd messages tr o.
Proof.
  set (cb := ex_onDisconnect (q_exchange q)).
  induction fuel as [|fuel IH]; intros w.
  - exists [], OutOfFuel. split; [|constructor].
    cbn. unfold out_of_fuel. by rewrite app_nil_r, set_log_same.
  - rewrite consume_for_step. unfold mbind, M_bind.
    rewrite consume_select_run. fold cb.
    set (w1 := after (call (RecvDelivery dd)) w).
    assert (Hw1 : w1 = set_log (log w ++ [Ev (RecvDelivery dd)
                                            (answer w (RecvDelivery dd))]) w)
      by reflexivity.
    destruct (answer w (RecvDelivery dd)) as [[d [|]]| | |] eqn:Hrecv.
    + set (snd_ := SendMessage messages (Queue.message d)).
      rewrite after_call.
      destruct (answer w1 snd_) as [[]| | |] eqn:Hsend; cbn [fmap Outcome_fmap].
      * destruct (IH (set_log (log w1 ++ [Ev snd_ (Returned tt)]) w1))
          as (tr & o & Hrun & Hshape).
        exists (Ev (RecvDelivery dd) (Returned (d, true))
                :: Ev snd_ (Returned tt) :: tr), o.
        split; [|by constructor].
        rewrite Hrun, Hw1. cbn [log set_log]. rewrite set_log_twice.
        by rewrite <- !app_assoc.
      * exists [Ev (RecvDelivery dd) (Returned (d, true)); Ev snd_ Blocked],
          Blocked.
        split; [|by constructor].
        rewrite Hw1. cbn [log set_log]. by rewrite set_log_twice, <- app_assoc.
      * exists [Ev (RecvDelivery dd) (Returned (d, true));
                Ev snd_ (Panicked msg)], (Panicked msg).
        split; [|by constructor].
        rewrite Hw1. cbn [log set_log]. by rewrite set_log_twice, <- app_assoc.
      * exists [Ev (RecvDelivery dd) (Returned (d, true)); Ev snd_ OutOfFuel],
          OutOfFuel.
        split; [|by constructor].
        rewrite Hw1. cbn [log set_log]. by rewrite set_log_twice, <- app_assoc.
    + exists [Ev (RecvDelivery dd) (Returned (d, false));
              Ev (CallFunc cb) (func_outcome cb w1)], (func_outcome cb w1).
      split; [|by constructor].
      unfold after. rewrite invoke_run, Hw1. cbn [log set_log].
      rewrite set_log_twice, <- app_assoc.
      destruct (func_outcome cb _) as [[]| | |]; cbn [fmap Outcome_fmap];
        rewrite ?consume_for_closed; reflexivity.
    + exists [Ev (RecvDelivery dd) Blocked], Blocked.
      split; [by rewrite Hw1|]. by apply (cr_recv_stuck _ _ _ Blocked).
    + exists [Ev (RecvDelivery dd) (Panicked msg)], (Panicked msg).
      split; [by rewrite Hw1|]. by apply (cr_recv_stuck _ _ _ (Panicked msg)).
    + exists [Ev (RecvDelivery dd) OutOfFuel], OutOfFuel.
      split; [by rewrite Hw1|]. by apply (cr_recv_stuck _ _ _ OutOfFuel).
Qed.

Lemma consume_for_run_shape q dd messages fuel w :
  consumer_run (ex_onDisconnect (q_exchange q)) dd messages
    (trace (Queue.consume_for fuel q dd messages true) w)
    (outcome (Queue.consume_for fuel q dd messages true) w).
Proof.
  destruct (consume_for_shape q dd messages fuel w) as (tr & o & Hrun & Hs).
  unfold trace, outcome. rewrite Hrun. cbn [fst snd log set_log].
  by rewrite drop_app_length.
Qed.

(** *** What the shape implies *)

Lemma consumer_run_no_close cb dd messages tr o :
  consumer_run cb dd messages tr o -> existsb is_CloseChan tr = false.
Proof. induction 1; done. Qed.

Lemma consumer_run_func_calls cb dd messages tr o :
  consumer_run cb dd messages tr o -> func_calls tr <= 1.
Proof. induction 1; unfold func_calls in *; cbn in *; lia. Qed.

Lemma forwarding_cons dd messages d ds :
  forwarding dd messages (d :: ds)
  = Ev (RecvDelivery dd) (Returned (d, true))
    :: Ev (SendMessage messages (Queue.message d)) (Returned tt)
    :: forwarding dd messages ds.
Proof. reflexivity. Qed.

Lemma func_calls_forwarding dd messages ds tl :
  func_calls (forwarding dd messages ds ++ tl) = func_calls tl.
Proof. induction ds as [|d ds IH]; [done|]. by rewrite forwarding_cons. Qed.

(** A run in which a receive reported not-ok forwarded some deliveries,
    then saw the not-ok, called the callback, and ended as that call ended;
    this was the only call of a function. *)
Lemma consumer_run_closed cb dd messages tr o :
  consumer_run cb dd messages tr o ->
  existsb is_closed_recv tr = true ->
  exists ds d,
    tr = forwarding dd messages ds
         ++ [Ev (RecvDelivery dd) (Returned (d, false)); Ev (CallFunc cb) o] /\
    func_calls tr = 1.
Proof.
  induction 1 as [|a Ha|d a Ha|d tr o Hrun IH|d a]; intros Hc.
  - discriminate Hc.
  - destruct a as [p| | |]; [by destruct (Ha p)|discriminate..].
  - discriminate Hc.
  - destruct (IH Hc) as (ds & d' & -> & Hn).
    exists (d :: ds), d'. split; [done|]. exact Hn.
  - by exists [], d.
Qed.

Lemma sent_cons_send messages m tr :
  sent messages (Ev (SendMessage messages m) (Returned tt) :: tr)
  = m :: sent messages tr.
Proof. unfold sent. cbn. by rewrite decide_True. Qed.

Lemma received_cons_recv dd d tr :
  received dd (Ev (RecvDelivery dd) (Returned (d, true)) :: tr)
  = d :: received dd tr.
Proof. unfold received. cbn. by rewrite decide_True. Qed.

Lemma sent_forwarding dd messages ds :
  sent messages (forwarding dd messages ds) = Queue.message <$> ds.
Proof.
  induction ds as [|d ds IH]; [done|].
  rewrite forwarding_cons, fmap_cons, <- IH, <- sent_cons_send. reflexivity.
Qed.

Lemma received_forwarding dd messages ds :
  received dd (forwarding dd messages ds) = ds.
Proof.
  induction ds as [|d ds IH]; [done|].
  rewrite forwarding_cons, received_cons_recv. f_equal. exact IH.
Qed.

(** In every run the messages sent are, in order, the messages built from
    the deliveries received; only the last delivery received may not have
    been sent yet. *)
Lemma consumer_run_order cb dd messages tr o :
  consumer_run cb dd messages tr o ->
  sent messages tr `prefix_of` (Queue.message <$> received dd tr) /\
  length (received dd tr) <= S (length (sent messages tr)).
Proof.
  induction 1 as [|a Ha|d a Ha|d tr o Hrun [IH1 IH2]|d a].
  - split; [done|]. cbn. lia.
  - destruct a as [p| | |]; [by destruct (Ha p)| | |];
      (split; [apply prefix_nil|cbn; lia]).
  - rewrite received_cons_recv.
    destruct a as [u| | |]; [by destruct (Ha u)| | |];
      (split; [apply prefix_nil|cbn; lia]).
  - rewrite received_cons_recv.
    change (sent messages
              (Ev (RecvDelivery dd) (Returned (d, true))
               :: Ev (SendMessage messages (Queue.message d)) (Returned tt)
               :: tr))
      with (sent messages
              (Ev (SendMessage messages (Queue.message d)) (Returned tt) :: tr)).
    rewrite sent_cons_send, fmap_cons. split.
    + by apply prefix_cons.
    + change (received dd
                (Ev (SendMessage messages (Queue.message d)) (Returned tt)
                 :: tr))
        with (received dd tr).
      cbn [length]. lia.
  - split; [apply prefix_nil|cbn; lia].
Qed.

(** When the stream closes after the deliveries [ds], a loop with fuel for
    one more pass than [ds] has forwarded them, then calls the callback and
    ends as the callback ends. *)
Lemma consume_for_disconnect q dd messages ds d0 w fuel :
  let cb := ex_onDisconnect (q_exchange q) in
  let tr := forwarding dd messages ds
            ++ [Ev (RecvDelivery dd) (Returned (d0, false))] in
  let w1 := set_log (log w ++ tr) w in
  follows (env w) (log w) tr ->
  length ds < fuel ->
  Queue.consume_for fuel q dd messages true w
  = (func_outcome cb w1, after (invoke cb) w1).
Proof.
  intros cb tr w1 Hf Hfuel.
  apply follows_app in Hf as [Hfw Hclosed]. cbn in Hclosed.
  destruct Hclosed as [Hclosed _].
  replace fuel with (length ds + S (fuel - S (length ds))) by lia.
  rewrite consume_for_forwarding by exact Hfw.
  rewrite consume_for_step. unfold mbind, M_bind.
  rewrite consume_select_run. fold cb. unfold answer at 1.
  cbn [log env set_log]. rewrite Hclosed.
  assert (Hw1 : after (call (RecvDelivery dd))
                  (set_log (log w ++ forwarding dd messages ds) w) = w1).
  { rewrite after_call. unfold answer. cbn [log env set_log].
    rewrite Hclosed, set_log_twice. subst w1 tr. by rewrite <- app_assoc. }
  rewrite Hw1.
  destruct (func_outcome cb w1) as [[]| | |]; cbn [fmap Outcome_fmap];
    rewrite ?consume_for_closed; reflexivity.
Qed.

(** C1. In every run of the consumer closure the output channel is never
    closed and a function is called at most once; a run in which a receive
    on the delivery channel reported not-ok forwarded some deliveries
    before, then called the exchange's disconnect callback, exactly once,
    and ended there, as that call ended.  Such runs exist and end within the
    fuel: when the stream closes after the deliveries [ds], a loop with
    fuel for one more pass logs the forwarding of [ds], the not-ok receive
    and the call of the callback, nothing else, and ends as the callback
    ends (it returns when the callback returns). *)
Theorem consumer_disconnect_once (q : Queue) (dd messages : Chan) :
  let cb := ex_onDisconnect (q_exchange q) in
  let run fuel := Queue.consume_for fuel q dd messages true in
  (forall fuel w,
     existsb is_CloseChan (trace (run fuel) w) = false /\
     func_calls (trace (run fuel) w) <= 1 /\
     (existsb is_closed_recv (trace (run fuel) w) = true ->
      exists ds d,
        trace (run fuel) w
        = forwarding dd messages ds
          ++ [Ev (RecvDelivery dd) (Returned (d, false));
              Ev (CallFunc cb) (outcome (run fuel) w)] /\
        func_calls (trace (run fuel) w) = 1)) /\
  (forall ds d0 w fuel,
     let tr := forwarding dd messages ds
               ++ [Ev (RecvDelivery dd) (Returned (d0, false))] in
     let w1 := set_log (log w ++ tr) w in
     follows (env w) (log w) tr ->
     length ds < fuel ->
     trace (run fuel) w = tr ++ [Ev (CallFunc cb) (func_outcome cb w1)] /\
     outcome (run fuel) w = func_outcome cb w1 /\
     func_calls (trace (run fuel) w) = 1 /\
     existsb is_CloseChan (trace (run fuel) w) = false).
Proof.
  intros cb run. split.
  - intros fuel w.
    pose proof (consume_for_run_shape q dd messages fuel w) as Hs.
    fold cb in Hs. change (Queue.consume_for fuel q dd messages true)
      with (run fuel) in Hs.
    split; [by eapply consumer_run_no_close|].
    split; [by eapply consumer_run_func_calls|].
    intros Hc. by apply (consumer_run_closed _ _ _ _ _ Hs).
  - intros ds d0 w fuel tr w1 Hf Hfuel.
    pose proof (consume_for_disconnect q dd messages ds d0 w fuel Hf Hfuel)
      as Hrun.
    cbv zeta in Hrun. fold cb tr w1 in Hrun.
    assert (Htr : trace (run fuel) w
                  = tr ++ [Ev (CallFunc cb) (func_outcome cb w1)]).
    { apply trace_of_log. subst run. cbv beta. rewrite Hrun.
      unfold after. rewrite invoke_run. subst w1. cbn [snd log set_log].
      by rewrite <- app_assoc. }
    split; [exact Htr|].
    split; [unfold outcome; subst run; cbv beta; by rewrite Hrun|].
    pose proof (consume_for_run_shape q dd messages fuel w) as Hs.
    change (Queue.consume_for fuel q dd messages true) with (run fuel) in Hs.
    split; [|by eapply consumer_run_no_close].
    rewrite Htr. subst tr. rewrite <- app_assoc.
    by rewrite func_calls_forwarding.
Qed.

(** ** Subscribe *)

Lemma grows_go g : grows (go g).
Proof. intros w. exists []. by rewrite app_nil_r. Qed.

(** The run of [Subscribe] once the queue is bound. *)
Lemma Queue_Subscribe_bound q messages w dd ec :
  let ch := ex_channel (q_exchange q) in
  let rb := Channel_QueueBind ch (q_name q) (q_routingKey q)
              (ex_Name (q_exchange q)) false None in
  let rc := Channel_Consume ch (q_name q) (q_name q) false false false false
              None in
  let wb := after (call rb) w in
  let wc := after (call rc) wb in
  answer w rb = Returned None ->
  answer wb rc = Returned (dd, ec) ->
  Queue.Subscribe q messages w =
  match ec with
  | Some err => (Returned (Some err), wc)
  | None =>
      (Returned None,
       set_goroutines
         (goroutines w
          ++ [{| g_queue := q; g_dd := dd; g_messages := messages |}]) wc)
  end.
Proof.
  intros ch rb rc wb wc Hb Hc.
  unfold Queue.Subscribe, Queue.bind, Queue.consumerName.
  rewrite bind_call. fold ch rb. rewrite Hb. fold wb.
  rewrite bind_call. fold rc. rewrite Hc. fold wc.
  by destruct ec.
Qed.

(** C6. [Subscribe] first binds the queue to the exchange under the queue's
    routing key (no-wait false); when that fails it returns the error and
    neither consumes nor starts a consumer.  Otherwise it starts consuming
    from the queue with the queue name as consumer name and autoAck,
    exclusive, noLocal and noWait all false, and when that succeeds it
    starts one consumer closure on the delivery channel and returns nil.
    The message built from a delivery has that delivery's headers and body,
    and its acknowledger holds that delivery's tag: [Ack] and [Nack] on it
    call the library with this tag and multiple false.  In every run of the
    closure the messages sent on the output channel are, in order, the
    messages of the deliveries received (the last delivery received may
    still wait to be sent); and when the environment hands over the
    deliveries [ds] and takes the messages, the closure logs exactly the
    forwarding of [ds], one receive and one send per delivery, in the order
    of arrival. *)
Theorem Subscribe_bind_consume_forward (q : Queue) (messages : Chan)
    (w : World) :
  let ch := ex_channel (q_exchange q) in
  let rb := Channel_QueueBind ch (q_name q) (q_routingKey q)
              (ex_Name (q_exchange q)) false None in
  let rc := Channel_Consume ch (q_name q) (q_name q) false false false false
              None in
  let wb := after (call rb) w in
  let run := Queue.Subscribe q messages in
  (exists tl, trace run w = Ev rb (answer w rb) :: tl) /\
  (forall err, answer w rb = Returned (Some err) ->
     outcome run w = Returned (Some err) /\
     trace run w = [Ev rb (Returned (Some err))] /\
     goroutines (after run w) = goroutines w) /\
  (forall dd ec,
     answer w rb = Returned None ->
     answer wb rc = Returned (dd, ec) ->
     outcome run w = Returned ec /\
     trace run w = [Ev rb (Returned None); Ev rc (Returned (dd, ec))] /\
     (ec = None ->
      goroutines (after run w)
      = goroutines w
        ++ [{| g_queue := q; g_dd := dd; g_messages := messages |}])) /\
  (forall d w',
     msg_Headers (Queue.message d) = dlv_Headers d /\
     msg_Body (Queue.message d) = dlv_Body d /\
     ack_deliveryTag (msg_Acknowledger (Queue.message d)) = dlv_DeliveryTag d /\
     trace (acknowledger_.Ack (msg_Acknowledger (Queue.message d))) w'
     = [Ev (Acknowledger_Ack (dlv_Acknowledger d) (dlv_DeliveryTag d) false)
          (answer w' (Acknowledger_Ack (dlv_Acknowledger d)
                        (dlv_DeliveryTag d) false))] /\
     forall requeue,
       trace (acknowledger_.Nack (msg_Acknowledger (Queue.message d)) requeue)
         w'
       = [Ev (Acknowledger_Nack (dlv_Acknowledger d) (dlv_DeliveryTag d)
                false requeue)
            (answer w' (Acknowledger_Nack (dlv_Acknowledger d)
                          (dlv_DeliveryTag d) false requeue))]) /\
  (forall dd fuel w',
     let g := {| g_queue := q; g_dd := dd; g_messages := messages |} in
     let tr := trace (Queue.consumer fuel g) w' in
     sent messages tr `prefix_of` (Queue.message <$> received dd tr) /\
     length (received dd tr) <= S (length (sent messages tr))) /\
  (forall dd ds w' fuel,
     let g := {| g_queue := q; g_dd := dd; g_messages := messages |} in
     follows (env w') (log w') (forwarding dd messages ds) ->
     length ds <= fuel ->
     (exists tl,
        trace (Queue.consumer fuel g) w' = forwarding dd messages ds ++ tl) /\
     received dd (forwarding dd messages ds) = ds /\
     sent messages (forwarding dd messages ds) = Queue.message <$> ds).
Proof.
  intros ch rb rc wb run. repeat apply conj.
  - subst run. unfold Queue.Subscribe, Queue.bind. apply trace_bind_call.
    intros [err|]; [apply grows_mret|].
    apply grows_bind; [apply grows_call|]. intros [dd [err|]];
      [apply grows_mret|].
    apply grows_bind; [apply grows_go|]. intros _. apply grows_mret.
  - intros err Hb. subst run.
    assert (Hrun : Queue.Subscribe q messages w
                   = (Returned (Some err), wb)).
    { unfold Queue.Subscribe, Queue.bind. rewrite bind_call.
      fold ch rb. by rewrite Hb. }
    unfold outcome, after. rewrite Hrun. repeat split.
    apply trace_of_log. rewrite Hrun. subst wb. cbn [snd].
    by rewrite log_after_call, Hb.
  - intros dd ec Hb Hc. subst run.
    pose proof (Queue_Subscribe_bound q messages w dd ec Hb Hc) as Hrun.
    cbv zeta in Hrun. fold ch rb rc wb in Hrun.
    assert (Hlog : log (after (call rc) wb)
                   = log w ++ [Ev rb (Returned None);
                               Ev rc (Returned (dd, ec))]).
    { rewrite log_after_call, Hc. subst wb.
      by rewrite log_after_call, Hb, <- app_assoc. }
    unfold outcome, after. rewrite Hrun. repeat split.
    + by destruct ec.
    + apply trace_of_log. rewrite Hrun. by destruct ec.
    + by intros ->.
  - intros d w'. repeat split; intros; apply trace_call.
  - intros dd fuel w' g tr.
    apply (consumer_run_order (ex_onDisconnect (q_exchange q)) _ _ _
             (outcome (Queue.consumer fuel g) w')).
    apply consume_for_run_shape.
  - intros dd ds w' fuel g Hf Hfuel. split; [|split].
    + unfold Queue.consumer. cbn [g_queue g_dd g_messages g].
      replace fuel with (length ds + (fuel - length ds)) by lia.
      destruct (consume_for_shape q dd messages (fuel - length ds)
                  (set_log (log w' ++ forwarding dd messages ds) w'))
        as (tl & o & Hrun & _).
      exists tl. apply trace_of_log.
      rewrite consume_for_forwarding by exact Hf. rewrite Hrun.
      cbn [snd log set_log]. by rewrite app_assoc.
    + apply received_forwarding.
    + apply sent_forwarding.
Qed.

(** ** NewExchange *)

Lemma load_run p o w : heap w !! p = Some o -> load p w = (Returned o, w).
Proof. intros H. unfold load. by rewrite H. Qed.

(** The world [NewExchange] leaves when dialing and opening the channel
    succeed on options whose [OnDisconnect] is nil: the two calls and the
    declaration are logged, and the options struct has the default
    callback. *)
Lemma NewExchange_nil_OnDisconnect_run url p o c ch w :
  let url' := if decide (url = ""%string) then DefaultURL else url in
  let w1 := after (call (Dial url')) w in
  let w2 := after (call (Connection_Channel c)) w1 in
  let o' := set_OnDisconnect (Some DefaultOnDisconnect) o in
  let w3 := set_heap (<[p := o']> (heap w)) w2 in
  let rd := Channel_ExchangeDeclare ch (eo_Name o) (eo_Type o) (eo_Durable o)
              (eo_AutoDelete o) false false None in
  heap w !! p = Some o ->
  eo_OnDisconnect o = None ->
  answer w (Dial url') = Returned (c, None) ->
  answer w1 (Connection_Channel c) = Returned (ch, None) ->
  after (Exchange.NewExchange url (Some p)) w = after (call rd) w3 /\
  outcome (Exchange.NewExchange url (Some p)) w =
  match answer w3 rd with
  | Returned (Some err) => Returned (None, Some err)
  | Returned None =>
      Returned (Some {| ex_Name := eo_Name o; ex_connection := c;
                        ex_channel := ch;
                        ex_onDisconnect := Some DefaultOnDisconnect |}, None)
  | Blocked => Blocked
  | Panicked msg => Panicked msg
  | OutOfFuel => OutOfFuel
  end.
Proof.
  intros url' w1 w2 o' w3 rd Hp Ho Hd Hc.
  unfold after, outcome, Exchange.NewExchange. cbv zeta. fold url'.
  rewrite bind_call. rewrite Hd. fold w1.
  rewrite bind_call. rewrite Hc. fold w2.
  rewrite (bind_Returned (load p) _ w2 o w2) by by apply load_run.
  rewrite Ho.
  rewrite (bind_Returned (store p _) _ w2 tt w3) by reflexivity.
  rewrite (bind_Returned (load p) _ w3 o' w3).
  2:{ apply load_run. subst w3. cbn [heap set_heap].
      apply lookup_insert_eq. }
  rewrite bind_call. change (eo_Name o') with (eo_Name o).
  change (eo_Type o') with (eo_Type o).
  change (eo_Durable o') with (eo_Durable o).
  change (eo_AutoDelete o') with (eo_AutoDelete o). fold rd.
  destruct (answer w3 rd) as [[err|]| | |]; split; reflexivity.
Qed.

(** C10. When [NewExchange] is given non-nil options whose [OnDisconnect] is
    nil, and dialing and opening the channel succeed, it writes
    [DefaultOnDisconnect] into the [OnDisconnect] field of the caller's
    struct, whatever the declaration of the exchange returns afterwards;
    the other fields of that struct, and every other struct of the heap,
    are as before. *)
Theorem NewExchange_writes_default_OnDisconnect (url : string) (p : nat)
    (o : ExchangeOptions) (c : Connection) (ch : Channel) (w : World) :
  let url' := if decide (url = ""%string) then DefaultURL else url in
  let w1 := after (call (Dial url')) w in
  let w' := after (Exchange.NewExchange url (Some p)) w in
  heap w !! p = Some o ->
  eo_OnDisconnect o = None ->
  answer w (Dial url') = Returned (c, None) ->
  answer w1 (Connection_Channel c) = Returned (ch, None) ->
  heap w' !! p
  = Some {| eo_Name := eo_Name o; eo_Type := eo_Type o;
            eo_Durable := eo_Durable o; eo_AutoDelete := eo_AutoDelete o;
            eo_OnDisconnect := Some DefaultOnDisconnect |} /\
  (forall p', p' <> p -> heap w' !! p' = heap w !! p').
Proof.
  intros url' w1 w' Hp Ho Hd Hc.
  destruct (NewExchange_nil_OnDisconnect_run url p o c ch w Hp Ho Hd Hc)
    as [Hafter _].
  subst w'. rewrite Hafter. cbn [heap after call perform snd set_log set_heap].
  split.
  - apply lookup_insert_eq.
  - intros p' Hne. by apply lookup_insert_ne.
Qed.

(** ** The theorems on concrete runs *)

(** The stream closes after two deliveries: the caller's callback is called
    once and the loop returns; with the default callback the loop ends in
    the panic "Lost connection". *)
Lemma consumer_disconnect_once_witness :
  (let run := Queue.consume_for 3 test_queue 7 9 true in
   let w := start two_then_closed in
   trace run w
   = (forwarding 7 9 [delivery1; delivery2]
      ++ [Ev (RecvDelivery 7) (Returned (zero_Delivery, false))])
     ++ [Ev (CallFunc (Some (Closure 0))) (Returned tt)] /\
   outcome run w = Returned tt /\
   func_calls (trace run w) = 1 /\
   existsb is_CloseChan (trace run w) = false) /\
  (let run := Queue.consume_for 5 default_queue 7 9 true in
   let w := start two_then_closed in
   exists ds d,
     trace run w
     = forwarding 7 9 ds
       ++ [Ev (RecvDelivery 7) (Returned (d, false));
           Ev (CallFunc (Some DefaultOnDisconnect)) (outcome run w)] /\
     func_calls (trace run w) = 1).
Proof.
  split.
  - apply (proj2 (consumer_disconnect_once test_queue 7 9)
             [delivery1; delivery2] zero_Delivery (start two_then_closed) 3).
    + vm_compute. repeat split.
    + vm_compute. lia.
  - apply (proj1 (consumer_disconnect_once default_queue 7 9) 5
             (start two_then_closed)).
    vm_compute. reflexivity.
Defined.


(** Closing the channel fails with "boom"; the connection is left alone. *)
Lemma Exchange_Close_channel_then_connection_witness :
  (outcome (Exchange.Close live_exchange) (start close_fails)
   = Returned (Some boom) /\
   trace (Exchange.Close live_exchange) (start close_fails)
   = [Ev (Channel_Close (Some 2)) (Returned (Some boom))] /\
   existsb is_Connection_Close
     (trace (Exchange.Close live_exchange) (start close_fails)) = false) /\
  (outcome (Exchange.Close live_exchange) (start two_then_closed)
   = Returned None /\
   trace (Exchange.Close live_exchange) (start two_then_closed)
   = [Ev (Channel_Close (Some 2)) (Returned None);
      Ev (Connection_Close (Some 1)) (Returned None)]).
Proof.
  split.
  - apply (proj1 (proj2 (Exchange_Close_channel_then_connection live_exchange
                           (start close_fails))) boom).
    reflexivity.
  - apply (proj2 (proj2 (Exchange_Close_channel_then_connection live_exchange
                           (start two_then_closed)))).
    reflexivity.
Defined.

(** A subscription on a willing broker, and on one that refuses to bind. *)
Lemma Subscribe_bind_consume_forward_witness :
  (outcome (Queue.Subscribe test_queue 9) (start refusing)
   = Returned (Some boom) /\
   trace (Queue.Subscribe test_queue 9) (start refusing)
   = [Ev (Channel_QueueBind (Some 2) "amqptest.queue" "amqptest.messages"
            "hutch" false None) (Returned (Some boom))] /\
   goroutines (after (Queue.Subscribe test_queue 9) (start refusing)) = []) /\
  (outcome (Queue.Subscribe test_queue 9) (start two_then_closed)
   = Returned None /\
   trace (Queue.Subscribe test_queue 9) (start two_then_closed)
   = [Ev (Channel_QueueBind (Some 2) "amqptest.queue" "amqptest.messages"
            "hutch" false None) (Returned None);
      Ev (Channel_Consume (Some 2) "amqptest.queue" "amqptest.queue" false
            false false false None) (Returned (7, None))] /\
   goroutines (after (Queue.Subscribe test_queue 9) (start two_then_closed))
   = [{| g_queue := test_queue; g_dd := 7; g_messages := 9 |}]) /\
  ((exists tl,
      trace (Queue.consumer 2
               {| g_queue := test_queue; g_dd := 7; g_messages := 9 |})
        (start two_then_closed)
      = forwarding 7 9 [delivery1; delivery2] ++ tl) /\
   received 7 (forwarding 7 9 [delivery1; delivery2])
   = [delivery1; delivery2] /\
   sent 9 (forwarding 7 9 [delivery1; delivery2])
   = Queue.message <$> [delivery1; delivery2]).
Proof.
  pose proof (Subscribe_bind_consume_forward test_queue 9 (start refusing))
    as (_ & Hrefused & _).
  pose proof (Subscribe_bind_consume_forward test_queue 9
                (start two_then_closed))
    as (_ & _ & Hbound & _ & _ & Hforward).
  split; [|split].
  - apply (Hrefused boom). reflexivity.
  - destruct (Hbound 7 None eq_refl eq_refl) as (Ho & Htr & Hg).
    split; [exact Ho|]. split; [exact Htr | exact (Hg eq_refl)].
  - apply (Hforward 7 [delivery1; delivery2] (start two_then_closed) 2).
    + vm_compute. repeat split.
    + vm_compute. lia.
Defined.

(** Publishing on [&Exchange{}] and on a live exchange. *)
Lemma Exchange_Publish_wire_shape_witness :
  (outcome (Exchange.Publish zero_exchange "k" "{}" "id") (start close_fails)
   = Returned (Some (ErrorString "channel is nil")) /\
   after (Exchange.Publish zero_exchange "k" "{}" "id") (start close_fails)
   = start close_fails) /\
  outcome (Exchange.PublishTransient live_exchange "k" "{}" "id")
    (start close_fails)
  = Returned None.
Proof.
  pose proof (Exchange_Publish_wire_shape zero_exchange "k" "{}" "id"
                (start close_fails)) as (_ & Hnil & _).
  pose proof (Exchange_Publish_wire_shape live_exchange "k" "{}" "id"
                (start close_fails)) as (_ & _ & Hlive).
  split.
  - destruct (Hnil eq_refl) as (H1 & H2 & _). split; [exact H1 | exact H2].
  - assert (Hch : ex_channel live_exchange <> None) by discriminate.
    destruct (Hlive Hch) as (_ & _ & H3 & _). exact H3.
Defined.

(** A queue with a prefetch count of ten, a queue with nil options, and a
    refused declaration. *)
Lemma NewQueue_declare_then_qos_witness :
  (outcome (Queue.NewQueue "amqptest.queue" live_exchange
              (Some prefetch_options)) (start two_then_closed)
   = Returned (Some {| q_exchange := live_exchange;
                       q_routingKey := "amqptest.messages";
                       q_name := "amqptest.queue" |}, None) /\
   existsb is_Channel_Qos
     (trace (Queue.NewQueue "amqptest.queue" live_exchange
               (Some prefetch_options)) (start two_then_closed)) = true) /\
  (trace (Queue.NewQueue "amqptest.queue" live_exchange None)
     (start two_then_closed)
   = [Ev (Channel_QueueDeclare (Some 2) "amqptest.queue" true false false
            false None)
        (Returned ({| qs_Name := "amqptest.queue"; qs_Messages := 0;
                      qs_Consumers := 0 |}, None))]) /\
  outcome (Queue.NewQueue "amqptest.queue" live_exchange None) (start refusing)
  = Returned (None, Some boom).
Proof.
  pose proof (NewQueue_declare_then_qos "amqptest.queue" live_exchange
                (Some prefetch_options) (start two_then_closed))
    as (_ & _ & _ & Hten).
  pose proof (NewQueue_declare_then_qos "amqptest.queue" live_exchange None
                (start two_then_closed))
    as (_ & _ & _ & Hnil).
  pose proof (NewQueue_declare_then_qos "amqptest.queue" live_exchange None
                (start refusing))
    as (_ & _ & Hrefused & _).
  split; [|split].
  - destruct (Hten {| qs_Name := "amqptest.queue"; qs_Messages := 0;
                      qs_Consumers := 0 |} eq_refl) as (Hiff & Hyes & _).
    assert (Hp : (0 < qo_PrefetchCount prefetch_options
                  \/ 0 < qo_PrefetchSize prefetch_options)%Z)
      by (left; reflexivity).
    destruct (Hyes Hp) as (Htr & _ & Hok).
    split; [exact (Hok eq_refl)|]. apply Hiff. exact Hp.
  - destruct (Hnil {| qs_Name := "amqptest.queue"; qs_Messages := 0;
                      qs_Consumers := 0 |} eq_refl) as (_ & _ & Hno).
    assert (Hp : ~ (0 < qo_PrefetchCount DefaultQueueOptions
                    \/ 0 < qo_PrefetchSize DefaultQueueOptions)%Z)
      by (intros [H|H]; discriminate H).
    destruct (Hno Hp) as (Htr & _). exact Htr.
  - destruct (Hrefused {| qs_Name := "amqptest.queue"; qs_Messages := 0;
                          qs_Consumers := 0 |} boom eq_refl) as (Ho & _).
    exact Ho.
Defined.

(** Closing the channel fails, the notification is nil: [Queue.Close]
    returns nil. *)
Lemma Queue_Close_discards_exchange_error_witness :
  outcome (Exchange.Close live_exchange)
    (after (call (Channel_NotifyClose (Some 2) 0))
       (after make_chan
          (after (call (Channel_Cancel (Some 2) "amqptest.queue" false))
             (start close_fails))))
  = Returned (Some boom) /\
  outcome (Queue.Close test_queue) (start close_fails) = Returned None.
Proof.
  split; [reflexivity|].
  apply (Queue_Close_discards_exchange_error test_queue (start close_fails)
           0 (Some boom)); reflexivity.
Defined.

(** Options without a callback at address 5: afterwards they hold the
    default callback, and the package's default options are as before. *)
Lemma NewExchange_writes_default_OnDisconnect_witness :
  heap (after (Exchange.NewExchange "" (Some 5))
          (with_bare_options two_then_closed)) !! 5
  = Some {| eo_Name := "events"; eo_Type := "fanout"; eo_Durable := false;
            eo_AutoDelete := true;
            eo_OnDisconnect := Some DefaultOnDisconnect |} /\
  heap (after (Exchange.NewExchange "" (Some 5))
          (with_bare_options two_then_closed)) !! DefaultExchangeOptions
  = Some DefaultExchangeOptions_init.
Proof.
  destruct (NewExchange_writes_default_OnDisconnect "" 5 bare_options
              (Some 1) (Some 2) (with_bare_options two_then_closed))
    as [Hp Hother]; try reflexivity.
  split; [exact Hp|].
  rewrite Hother by discriminate. reflexivity.
Defined.

(** * Further properties of the package *)

(** ** Acknowledgement and NullAcknowledger *)

(** X1. [String] names the three decisions "acked", "requeued" and
    "dropped"; every other number, zero, negative or beyond three, is
    "unacknowledged".  A name other than "unacknowledged" therefore
    identifies the decision. *)
Theorem Acknowledgement_String_names (a b : Acknowledgement) :
  (Acknowledgement_String a = "unacknowledged"%string <->
   a <> Acked /\ a <> Requeued /\ a <> Dropped) /\
  (Acknowledgement_String a <> "unacknowledged"%string ->
   Acknowledgement_String a = Acknowledgement_String b -> a = b).
Proof.
  unfold Acknowledgement_String, Acked, Requeued, Dropped. split.
  - repeat case_decide; subst; split; try discriminate; try tauto;
      intros (? & ? & ?); congruence.
  - repeat case_decide; subst; try discriminate; congruence.
Qed.

Lemma Acknowledgement_String_names_witness :
  (Acknowledgement_String (-7) = "unacknowledged"%string) /\
  (Acknowledgement_String 2 = Acknowledgement_String Requeued ->
   2%Z = Requeued).
Proof.
  split.
  - apply (proj1 (Acknowledgement_String_names (-7) 0)).
    repeat split; discriminate.
  - apply (proj2 (Acknowledgement_String_names 2 Requeued)).
    discriminate.
Defined.

Lemma NullAcknowledger_first_call_run c cs :
  NullAcknowledger_calls (c :: cs) NullAcknowledger.new
  = (None :: replicate (length cs) (Some ErrAlreadyAcked),
     {| na_acked := true;
        na_Acknowledgement := match c with
                              | CallAck => Acked
                              | CallNack true => Requeued
                              | CallNack false => Dropped
                              end |}).
Proof.
  cbn [NullAcknowledger_calls].
  destruct c as [|[|]]; cbn;
    by rewrite NullAcknowledger_calls_acked.
Qed.

Lemma NullAcknowledger_first_call_wins_aux c cs :
  na_acked (NullAcknowledger_reached (c :: cs)) = true /\
  na_Acknowledgement (NullAcknowledger_reached (c :: cs))
  = match c with
    | CallAck => Acked
    | CallNack true => Requeued
    | CallNack false => Dropped
    end.
Proof.
  unfold NullAcknowledger_reached. by rewrite NullAcknowledger_first_call_run.
Qed.

(** X3. Of any sequence of calls on a fresh [NullAcknowledger] the first
    succeeds and all the others fail with [ErrAlreadyAcked]; the decision
    the struct holds in the end is the one of the first call. *)
Theorem NullAcknowledger_first_call_wins (c : AckCall) (cs : list AckCall) :
  (NullAcknowledger_calls (c :: cs) NullAcknowledger.new).1
  = None :: replicate (length cs) (Some ErrAlreadyAcked) /\
  na_acked (NullAcknowledger_reached (c :: cs)) = true /\
  na_Acknowledgement (NullAcknowledger_reached (c :: cs))
  = match c with
    | CallAck => Acked
    | CallNack true => Requeued
    | CallNack false => Dropped
    end.
Proof.
  split; [by rewrite NullAcknowledger_first_call_run|].
  apply NullAcknowledger_first_call_wins_aux.
Qed.

(** X2. Whatever calls were made on a fresh [NullAcknowledger], either
    none was made and it is unacknowledged with [acked] false, or [acked]
    is true and the decision is one of [Acked], [Requeued], [Dropped]; so
    the decision reads "unacknowledged" exactly as long as [acked] is
    false. *)
Theorem NullAcknowledger_reached_invariant (cs : list AckCall) :
  let a := NullAcknowledger_reached cs in
  ((cs = [] /\ na_acked a = false /\ na_Acknowledgement a = Unacknowledged) \/
   (cs <> [] /\ na_acked a = true /\
    (na_Acknowledgement a = Acked \/ na_Acknowledgement a = Requeued \/
     na_Acknowledgement a = Dropped))) /\
  (Acknowledgement_String (na_Acknowledgement a) = "unacknowledged"%string
   <-> na_acked a = false).
Proof.
  intros a. subst a. destruct cs as [|c cs].
  - split; [by left|]. by cbn.
  - destruct (NullAcknowledger_first_call_wins_aux c cs) as (Hacked & Hd).
    rewrite Hacked. split.
    + right. split; [done|]. split; [done|].
      rewrite Hd. destruct c as [|[|]]; tauto.
    + rewrite Hd. split; [|done]. destruct c as [|[|]]; discriminate.
Qed.

(** ** acknowledger *)

Lemma acknowledger_call_request c d :
  acknowledger_call c d = call (acknowledger_request d c).
Proof. by destruct c. Qed.

(** The run of a sequence of calls: the library is asked once per call, in
    order, until an answer fails to come back. *)
Lemma acknowledger_calls_run d cs : forall w,
  exists tr,
    log (after (acknowledger_calls cs d) w) = log w ++ tr /\
    Forall2 (fun ev c => exists a, ev = Ev (acknowledger_request d c) a)
      tr (take (length tr) cs) /\
    length tr <= length cs /\
    forall es, outcome (acknowledger_calls cs d) w = Returned es ->
               length tr = length cs /\ length es = length cs.
Proof.
  induction cs as [|c cs IH]; intros w.
  - exists []. cbn. rewrite app_nil_r.
    split; [done|]. split; [constructor|]. split; [lia|].
    intros es Hes. by inversion Hes.
  - unfold after, outcome. cbn [acknowledger_calls].
    rewrite acknowledger_call_request, bind_call.
    set (r := acknowledger_request d c).
    destruct (answer w r) as [e| | |] eqn:Ha.
    2-4: exists [Ev r (answer w r)]; rewrite after_call;
         (split; [done|]); (split; [|split; [cbn; lia|discriminate]]);
         cbn; constructor; [by eexists|constructor].
    set (w1 := after (call r) w).
    destruct (IH w1) as (tr & Hlog & Hall & Hlen & Hret).
    exists (Ev r (Returned e) :: tr).
    assert (Hw1 : log w1 = log w ++ [Ev r (Returned e)])
      by (subst w1; by rewrite log_after_call, Ha).
    unfold after, outcome in Hlog, Hret. unfold mbind, M_bind.
    destruct (acknowledger_calls cs d w1) as [[es| | |] w'];
      cbn [fst snd] in *; unfold mret, M_ret; cbn [fst snd];
      rewrite Hlog, Hw1, <- app_assoc;
      (split; [done|]); (split; [cbn; constructor; [by eexists|done]|]);
      (split; [cbn; lia|]); try discriminate.
    intros es' Hes. inversion Hes; subst.
    destruct (Hret es eq_refl) as [H1 H2]. cbn. lia.
Qed.

(** X4. The network [acknowledger] keeps no record of its own: every call
    of a caller, a second [Ack] or a [Nack] after an [Ack] included, goes to
    the library, with the acknowledger's own tag and multiple false, one
    library call per call and in the same order; when all calls returned,
    none was left out. *)
Theorem acknowledger_forwards_every_call (d : acknowledger)
    (cs : list AckCall) (w : World) :
  let run := acknowledger_calls cs d in
  Forall2 (fun ev c => exists a, ev = Ev (acknowledger_request d c) a)
    (trace run w) (take (length (trace run w)) cs) /\
  length (trace run w) <= length cs /\
  (forall es, outcome run w = Returned es ->
              length (trace run w) = length cs /\ length es = length cs).
Proof.
  intros run. destruct (acknowledger_calls_run d cs w)
    as (tr & Hlog & Hall & Hlen & Hret).
  assert (Htr : trace run w = tr) by by apply trace_of_log.
  by rewrite Htr.
Qed.

(** Two [Ack]s in a row on a willing broker: the library sees both. *)
Lemma acknowledger_forwards_every_call_witness :
  let d := {| ack_Acknowledger := Some 2; ack_deliveryTag := 5 |} in
  length (trace (acknowledger_calls [CallAck; CallAck] d)
            (start two_then_closed)) = 2 /\
  length [None; None : error] = 2.
Proof.
  intros d.
  apply (proj2 (proj2 (acknowledger_forwards_every_call d [CallAck; CallAck]
                         (start two_then_closed))) [None; None]).
  reflexivity.
Defined.

(** ** NewExchange in general *)

(** The run of [NewExchange], by cases on what the library returns and on
    what the options pointer holds. *)
Lemma NewExchange_run url options w :
  let url' := if decide (url = ""%string) then DefaultURL else url in
  let p := match options with None => DefaultExchangeOptions | Some p => p end in
  let w1 := after (call (Dial url')) w in
  Exchange.NewExchange url options w =
  match answer w (Dial url') with
  | Returned (c, Some err) => (Returned (None, Some err), w1)
  | Returned (c, None) =>
      let w2 := after (call (Connection_Channel c)) w1 in
      match answer w1 (Connection_Channel c) with
      | Returned (ch, Some err) => (Returned (None, Some err), w2)
      | Returned (ch, None) =>
          match heap w !! p with
          | None => (Panicked nil_dereference, w2)
          | Some o =>
              let o' := if eo_OnDisconnect o is None
                        then set_OnDisconnect (Some DefaultOnDisconnect) o
                        else o in
              let w3 := if eo_OnDisconnect o is None
                        then set_heap (<[p := o']> (heap w)) w2
                        else w2 in
              let rd := Channel_ExchangeDeclare ch (eo_Name o) (eo_Type o)
                          (eo_Durable o) (eo_AutoDelete o) false false None in
              match answer w3 rd with
              | Returned (Some err) =>
                  (Returned (None, Some err), after (call rd) w3)
              | Returned None =>
                  (Returned (Some {| ex_Name := eo_Name o;
                                     ex_connection := c; ex_channel := ch;
                                     ex_onDisconnect := eo_OnDisconnect o' |},
                             None),
                   after (call rd) w3)
              | Blocked => (Blocked, after (call rd) w3)
              | Panicked msg => (Panicked msg, after (call rd) w3)
              | OutOfFuel => (OutOfFuel, after (call rd) w3)
              end
          end
      | Blocked => (Blocked, w2)
      | Panicked msg => (Panicked msg, w2)
      | OutOfFuel => (OutOfFuel, w2)
      end
  | Blocked => (Blocked, w1)
  | Panicked msg => (Panicked msg, w1)
  | OutOfFuel => (OutOfFuel, w1)
  end.
Proof.
  intros url' p w1. unfold Exchange.NewExchange. cbv zeta. fold url' p.
  rewrite bind_call. fold w1.
  destruct (answer w (Dial url')) as [[c [err|]]| | |]; try reflexivity.
  rewrite bind_call.
  set (w2 := after (call (Connection_Channel c)) w1).
  destruct (answer w1 (Connection_Channel c)) as [[ch [err|]]| | |];
    try reflexivity.
  unfold mbind at 1, M_bind at 1. unfold load at 1.
  change (heap w2) with (heap w).
  destruct (heap w !! p) as [o|] eqn:Hp; [|reflexivity].
  destruct (eo_OnDisconnect o) as [f|] eqn:Hf.
  - rewrite (bind_Returned (mret tt) _ w2 tt w2) by reflexivity.
    rewrite (bind_Returned (load p) _ w2 o w2) by by apply load_run.
    rewrite bind_call. rewrite Hf.
    destruct (answer w2 _) as [[err|]| | |]; reflexivity.
  - set (o' := set_OnDisconnect (Some DefaultOnDisconnect) o).
    set (w3 := set_heap (<[p := o']> (heap w)) w2).
    rewrite (bind_Returned (store p o') _ w2 tt w3) by reflexivity.
    rewrite (bind_Returned (load p) _ w3 o' w3).
    2:{ apply load_run. subst w3. cbn [heap set_heap].
        apply lookup_insert_eq. }
    rewrite bind_call.
    destruct (answer w3 _) as [[err|]| | |]; reflexivity.
Qed.

Lemma existsb_Forall_false {A} (f : A -> bool) (l : list A) :
  Forall (fun x => f x = false) l -> existsb f l = false.
Proof. induction 1 as [|x l Hx _ IH]; [done|]. cbn. by rewrite Hx, IH. Qed.

Lemma Forall_trace {A} (P : Event -> Prop) (m : M A) w :
  (exists tr, log (after m w) = log w ++ tr /\ Forall P tr) ->
  Forall P (trace m w).
Proof. intros (tr & Hlog & HP). by rewrite (trace_of_log m w tr Hlog). Qed.

(** X5. When dialing fails, or when opening the channel fails, [NewExchange]
    returns no exchange together with that error, calls nothing further,
    and leaves every options struct as it was: the default callback is
    written only after both steps succeeded. *)
Theorem NewExchange_early_failure (url : string) (options : option nat)
    (w : World) :
  let url' := if decide (url = ""%string) then DefaultURL else url in
  let w1 := after (call (Dial url')) w in
  let run := Exchange.NewExchange url options in
  (forall c err,
     answer w (Dial url') = Returned (c, Some err) ->
     outcome run w = Returned (None, Some err) /\
     trace run w = [Ev (Dial url') (Returned (c, Some err))] /\
     heap (after run w) = heap w) /\
  (forall c ch err,
     answer w (Dial url') = Returned (c, None) ->
     answer w1 (Connection_Channel c) = Returned (ch, Some err) ->
     outcome run w = Returned (None, Some err) /\
     trace run w = [Ev (Dial url') (Returned (c, None));
                    Ev (Connection_Channel c) (Returned (ch, Some err))] /\
     heap (after run w) = heap w).
Proof.
  intros url' w1 run.
  pose proof (NewExchange_run url options w) as Hrun. cbv zeta in Hrun.
  fold url' w1 run in Hrun. split.
  - intros c err Hd. rewrite Hd in Hrun. unfold outcome, after.
    rewrite Hrun. split; [done|]. split; [|done].
    apply trace_of_log. rewrite Hrun. subst w1. cbn [snd].
    by rewrite log_after_call, Hd.
  - intros c ch err Hd Hc. rewrite Hd, Hc in Hrun. unfold outcome, after.
    rewrite Hrun. split; [done|]. split; [|done].
    apply trace_of_log. rewrite Hrun. cbn [snd].
    rewrite log_after_call, Hc. subst w1.
    by rewrite log_after_call, Hd, <- app_assoc.
Qed.

Lemma NewExchange_early_failure_witness :
  outcome (Exchange.NewExchange "amqp://nowhere" (Some 5))
    (with_bare_options
       (fun T l r =>
          match r in Request T return Outcome T with
          | Dial _ => Returned (None, Some boom)
          | r' => two_then_closed _ l r'
          end))
  = Returned (None, Some boom).
Proof.
  apply (proj1 (NewExchange_early_failure "amqp://nowhere" (Some 5)
                  (with_bare_options _)) None boom).
  reflexivity.
Defined.

(** X6. [NewExchange] returns an exchange or an error, never both and never
    neither.  An exchange it returns always has a callback, and its name
    and callback are the ones the options struct holds after the call. *)
Theorem NewExchange_result (url : string) (options : option nat) (w : World) :
  let p := match options with None => DefaultExchangeOptions | Some p => p end in
  let run := Exchange.NewExchange url options in
  (forall e err, outcome run w = Returned (e, err) ->
     (e = None <-> err <> None)) /\
  (forall e err, outcome run w = Returned (Some e, err) ->
     ex_onDisconnect e <> None /\
     exists o, heap (after run w) !! p = Some o /\
               ex_Name e = eo_Name o /\
               ex_onDisconnect e = eo_OnDisconnect o).
Proof.
  intros p run.
  pose proof (NewExchange_run url options w) as Hrun. cbv zeta in Hrun.
  fold p run in Hrun. unfold outcome, after. rewrite Hrun. clear Hrun.
  destruct (answer w (Dial _)) as [[c [err1|]]| | |];
    [split; intros e err H; inversion H; subst; by split | |
     split; intros e err H; discriminate H ..].
  destruct (answer _ (Connection_Channel c)) as [[ch [err2|]]| | |];
    [split; intros e err H; inversion H; subst; by split | |
     split; intros e err H; discriminate H ..].
  destruct (heap w !! p) as [o|] eqn:Hp;
    [|split; intros e err H; discriminate H].
  destruct (eo_OnDisconnect o) as [f|] eqn:Hf.
  - destruct (answer _ _) as [[err3|]| | |]; cbn [fst snd]; split;
      intros e err H; inversion H; subst; try by split.
    split; [by rewrite Hf|]. exists o. by rewrite Hf.
  - destruct (answer _ _) as [[err3|]| | |]; cbn [fst snd]; split;
      intros e err H; inversion H; subst; try by split.
    split; [done|]. eexists. split; [apply lookup_insert_eq|done].
Qed.

Lemma NewExchange_result_witness :
  let run := Exchange.NewExchange "" (Some 5) in
  let w := with_bare_options two_then_closed in
  let e := {| ex_Name := "events"; ex_connection := Some 1;
              ex_channel := Some 2;
              ex_onDisconnect := Some DefaultOnDisconnect |} in
  ex_onDisconnect e <> None /\
  exists o, heap (after run w) !! 5 = Some o /\
            ex_Name e = eo_Name o /\
            ex_onDisconnect e = eo_OnDisconnect o.
Proof.
  intros run w e.
  apply (proj2 (NewExchange_result "" (Some 5) w) e None).
  reflexivity.
Defined.

(** X7. The only thing [NewExchange] ever writes is the default callback
    into an options struct that has none: in every run the heap is as
    before, or differs from before in that one field of the struct the
    options pointer names.  When the struct has a callback the heap is
    never written, and a returned exchange carries that callback. *)
Theorem NewExchange_only_write (url : string) (options : option nat)
    (w : World) :
  let p := match options with None => DefaultExchangeOptions | Some p => p end in
  let run := Exchange.NewExchange url options in
  (heap (after run w) = heap w \/
   exists o, heap w !! p = Some o /\ eo_OnDisconnect o = None /\
             heap (after run w)
             = <[p := set_OnDisconnect (Some DefaultOnDisconnect) o]> (heap w)) /\
  (forall o f, heap w !! p = Some o -> eo_OnDisconnect o = Some f ->
     heap (after run w) = heap w /\
     forall e err, outcome run w = Returned (Some e, err) ->
                   ex_onDisconnect e = Some f).
Proof.
  intros p run.
  pose proof (NewExchange_run url options w) as Hrun. cbv zeta in Hrun.
  fold p run in Hrun. unfold outcome, after. rewrite Hrun. clear Hrun.
  destruct (answer w (Dial _)) as [[c [err1|]]| | |];
    try (split; [by left|]; intros o f Hp Hf; split; [done|];
         intros e err H; discriminate H).
  destruct (answer _ (Connection_Channel c)) as [[ch [err2|]]| | |];
    try (split; [by left|]; intros o f Hp Hf; split; [done|];
         intros e err H; discriminate H).
  destruct (heap w !! p) as [o|] eqn:Hp.
  2:{ split; [by left|]. intros o f Ho. discriminate Ho. }
  destruct (eo_OnDisconnect o) as [f|] eqn:Hf.
  - split.
    + left. by destruct (answer _ _) as [[err3|]| | |].
    + intros o0 f0 Ho Hf0. inversion Ho; subst o0.
      rewrite Hf in Hf0. inversion Hf0; subst f0.
      destruct (answer _ _) as [[err3|]| | |]; (split; [done|]);
        intros e err H; inversion H; subst; cbn. exact Hf.
  - split.
    + right. exists o. split; [done|]. split; [done|].
      by destruct (answer _ _) as [[err3|]| | |].
    + intros o0 f0 Ho Hf0. inversion Ho; subst o0. congruence.
Qed.

Lemma NewExchange_only_write_witness :
  let run := Exchange.NewExchange "" None in
  let w := start two_then_closed in
  heap (after run w) = heap w /\
  forall e err, outcome run w = Returned (Some e, err) ->
                ex_onDisconnect e = Some DefaultOnDisconnect.
Proof.
  intros run w.
  apply (proj2 (NewExchange_only_write "" None w)
           DefaultExchangeOptions_init DefaultOnDisconnect); reflexivity.
Defined.

Lemma is_setup_not_close ev :
  is_setup ev = true ->
  is_Connection_Close ev = false /\ is_Channel_Close ev = false.
Proof. destruct ev as [T r a]. by destruct r. Qed.

Lemma NewExchange_log url options w :
  exists tr,
    log (after (Exchange.NewExchange url options) w) = log w ++ tr /\
    Forall (fun ev => is_setup ev = true) tr /\ length tr <= 3.
Proof.
  pose proof (NewExchange_run url options w) as Hrun. cbv zeta in Hrun.
  unfold after. rewrite Hrun. clear Hrun.
  set (url' := if decide (url = ""%string) then DefaultURL else url).
  set (p := match options with None => DefaultExchangeOptions | Some p => p end).
  set (e1 := Ev (Dial url') (answer w (Dial url'))).
  assert (H1 : log (after (call (Dial url')) w) = log w ++ [e1]) by done.
  destruct (answer w (Dial url')) as [[c [err1|]]| | |] eqn:Hd;
    try (exists [e1]; cbn [snd]; split; [done|];
         split; [by repeat constructor|cbn; lia]).
  set (w1 := after (call (Dial url')) w) in *.
  set (e2 := Ev (Connection_Channel c) (answer w1 (Connection_Channel c))).
  assert (H2 : log (after (call (Connection_Channel c)) w1)
               = log w ++ [e1; e2]).
  { rewrite log_after_call, H1, <- app_assoc. done. }
  destruct (answer w1 (Connection_Channel c)) as [[ch [err2|]]| | |] eqn:Hc;
    try (exists [e1; e2]; cbn [snd]; split; [done|];
         split; [by repeat constructor|cbn; lia]).
  destruct (heap w !! p) as [o|];
    [|exists [e1; e2]; cbn [snd]; split; [done|];
      split; [by repeat constructor|cbn; lia]].
  cbv zeta.
  match goal with
  | |- context [answer ?w3 ?rd] =>
      exists [e1; e2; Ev rd (answer w3 rd)];
      assert (H3 : log (after (call rd) w3)
                   = log w ++ [e1; e2; Ev rd (answer w3 rd)])
  end.
  { rewrite log_after_call. destruct (eo_OnDisconnect o);
      cbn [log set_heap]; rewrite H2, <- app_assoc; done. }
  split; [|split; [by repeat constructor|cbn; lia]].
  revert H3.
  match goal with
  | |- context [Ev ?rd (answer ?w3 ?rd)] =>
      destruct (answer w3 rd) as [[err3|]| | |]
  end; intros H3; exact H3.
Qed.

(** X8. [NewExchange] makes nothing but its three set-up calls, dial, open
    a channel, declare the exchange, at most once each; in particular it
    never closes the connection or the channel it opened, also when a later
    step fails and it returns no exchange. *)
Theorem NewExchange_never_closes (url : string) (options : option nat)
    (w : World) :
  let tr := trace (Exchange.NewExchange url options) w in
  Forall (fun ev => is_setup ev = true) tr /\
  length tr <= 3 /\
  existsb is_Connection_Close tr = false /\
  existsb is_Channel_Close tr = false.
Proof.
  intros tr. destruct (NewExchange_log url options w) as (tr' & Hlog & Hs & Hn).
  assert (Htr : tr = tr') by by apply trace_of_log.
  rewrite Htr. split; [done|]. split; [done|].
  split; apply existsb_Forall_false; eapply Forall_impl; try exact Hs;
    intros ev Hev; by destruct (is_setup_not_close ev Hev).
Qed.

(** ** NewQueue and the queue it returns *)

Lemma NewQueue_log queueName exchange options w :
  exists tr,
    log (after (Queue.NewQueue queueName exchange options) w) = log w ++ tr /\
    Forall (fun ev => is_declare_or_qos ev = true) tr /\ length tr <= 2.
Proof.
  pose proof (Queue_NewQueue_run queueName exchange options w) as Hrun.
  cbv zeta in Hrun. unfold after. rewrite Hrun. clear Hrun.
  set (o := match options with None => DefaultQueueOptions | Some o => o end).
  set (r1 := Channel_QueueDeclare _ _ _ _ _ _ _).
  set (r2 := Channel_Qos _ _ _ _).
  set (e1 := Ev r1 (answer w r1)).
  assert (H1 : log (after (call r1) w) = log w ++ [e1]) by done.
  set (w1 := after (call r1) w) in *.
  assert (H2 : log (after (call r2) w1)
               = log w ++ [e1; Ev r2 (answer w1 r2)]).
  { rewrite log_after_call, H1, <- app_assoc. done. }
  destruct (answer w r1) as [[qs [err|]]| | |];
    try (exists [e1]; cbn [snd]; split; [done|];
         split; [by repeat constructor|cbn; lia]).
  destruct ((0 <? qo_PrefetchCount o)%Z || (0 <? qo_PrefetchSize o)%Z);
    [|exists [e1]; cbn [snd]; split; [done|];
      split; [by repeat constructor|cbn; lia]].
  exists [e1; Ev r2 (answer w1 r2)].
  split; [|split; [by repeat constructor|cbn; lia]].
  revert H2. destruct (answer w1 r2) as [[err|]| | |]; intros H2; exact H2.
Qed.

Lemma NewQueue_result_aux (queueName : string) (exchange : Exchange)
    (options : option QueueOptions) (w : World) :
  let o := match options with None => DefaultQueueOptions | Some o => o end in
  let run := Queue.NewQueue queueName exchange options in
  (forall q err, outcome run w = Returned (q, err) ->
     (q = None <-> err <> None)) /\
  (forall q err, outcome run w = Returned (Some q, err) ->
     Queue.Name q = queueName /\ q_exchange q = exchange /\
     q_routingKey q = qo_RoutingKey o) /\
  Forall (fun ev => is_declare_or_qos ev = true) (trace run w) /\
  length (trace run w) <= 2.
Proof.
  intros o run. split; [|split].
  - pose proof (Queue_NewQueue_run queueName exchange options w) as Hrun.
    cbv zeta in Hrun. unfold outcome. fold run in Hrun. rewrite Hrun.
    destruct (answer w _) as [[qs [err1|]]| | |];
      try (intros q err H; inversion H; subst; by split);
      try (intros q err H; discriminate H).
    destruct (_ || _).
    + destruct (answer _ _) as [[err2|]| | |];
        try (intros q err H; inversion H; subst; by split);
        try (intros q err H; discriminate H).
    + intros q err H; inversion H; subst; by split.
  - pose proof (Queue_NewQueue_run queueName exchange options w) as Hrun.
    cbv zeta in Hrun. unfold outcome. fold run in Hrun. rewrite Hrun.
    destruct (answer w _) as [[qs [err1|]]| | |];
      try (intros q err H; discriminate H).
    destruct (_ || _).
    + destruct (answer _ _) as [[err2|]| | |];
        try (intros q err H; discriminate H).
      intros q err H; inversion H; subst; done.
    + intros q err H; inversion H; subst; done.
  - destruct (NewQueue_log queueName exchange options w)
      as (tr & Hlog & Hs & Hn).
    assert (Htr : trace run w = tr) by by apply trace_of_log.
    by rewrite Htr.
Qed.

(** X9. [NewQueue] returns a queue or an error, never both and never
    neither.  The queue it returns has the name it was given, belongs to the
    exchange it was given and has the routing key of the options.  All
    [NewQueue] asks of the library is the declaration and, possibly, the
    QoS: the queue is not bound and nothing is consumed yet. *)
Theorem NewQueue_result (queueName : string) (exchange : Exchange)
    (options : option QueueOptions) (w : World) :
  let o := match options with None => DefaultQueueOptions | Some o => o end in
  let run := Queue.NewQueue queueName exchange options in
  (forall q err, outcome run w = Returned (q, err) ->
     (q = None <-> err <> None)) /\
  (forall q err, outcome run w = Returned (Some q, err) ->
     Queue.Name q = queueName /\ q_exchange q = exchange /\
     q_routingKey q = qo_RoutingKey o) /\
  Forall (fun ev => is_declare_or_qos ev = true) (trace run w) /\
  length (trace run w) <= 2.
Proof. apply NewQueue_result_aux. Qed.

Lemma NewQueue_result_witness :
  let q := {| q_exchange := live_exchange;
              q_routingKey := "amqptest.messages";
              q_name := "amqptest.queue" |} in
  Queue.Name q = "amqptest.queue"%string /\ q_exchange q = live_exchange /\
  q_routingKey q = qo_RoutingKey prefetch_options.
Proof.
  intros q.
  apply (proj1 (proj2 (NewQueue_result "amqptest.queue" live_exchange
                         (Some prefetch_options) (start two_then_closed)))
           q None).
  reflexivity.
Defined.

Lemma Queue_Purge_run q w :
  Queue.Purge q w
  = (snd <$> answer w (Channel_QueuePurge (ex_channel (q_exchange q))
                         (q_name q) false),
     after (call (Channel_QueuePurge (ex_channel (q_exchange q)) (q_name q)
                    false)) w).
Proof.
  unfold Queue.Purge. rewrite bind_call.
  by destruct (answer w _) as [[n e]| | |].
Qed.

Lemma Queue_Subscribe_first q messages w :
  exists tl,
    trace (Queue.Subscribe q messages) w
    = Ev (Channel_QueueBind (ex_channel (q_exchange q)) (q_name q)
            (q_routingKey q) (ex_Name (q_exchange q)) false None)
        (answer w (Channel_QueueBind (ex_channel (q_exchange q)) (q_name q)
                     (q_routingKey q) (ex_Name (q_exchange q)) false None))
      :: tl.
Proof.
  unfold Queue.Subscribe, Queue.bind. apply trace_bind_call.
  intros [err|]; [apply grows_mret|].
  apply grows_bind; [apply grows_call|]. intros [dd [err|]];
    [apply grows_mret|].
  apply grows_bind; [apply grows_go|]. intros _. apply grows_mret.
Qed.

Lemma Queue_Close_first q w :
  exists tl,
    trace (Queue.Close q) w
    = Ev (Channel_Cancel (ex_channel (q_exchange q)) (q_name q) false)
        (answer w (Channel_Cancel (ex_channel (q_exchange q)) (q_name q)
                     false))
      :: tl.
Proof.
  unfold Queue.Close, Queue.consumerName. apply trace_bind_call.
  intros [err|]; [apply grows_mret|].
  apply grows_bind; [apply grows_make_chan|]. intros c.
  apply grows_Queue_Close_rest.
Qed.

(** X10. What [NewQueue] was given is what the queue later uses: on the
    queue it returned, [Subscribe] starts by binding the given name under
    the routing key of the options (the empty key for nil options) to the
    given exchange, [Purge] makes exactly one call, purging the given name
    with no-wait false, and returns its error whatever the count, and
    [Close] starts by cancelling the consumer of the given name; all three
    on the channel of the given exchange. *)
Theorem NewQueue_then_use (queueName : string) (exchange : Exchange)
    (options : option QueueOptions) (w w' : World) (q : Queue) (err : error)
    (messages : Chan) :
  let o := match options with None => DefaultQueueOptions | Some o => o end in
  let ch := ex_channel exchange in
  let rb := Channel_QueueBind ch queueName (qo_RoutingKey o)
              (ex_Name exchange) false None in
  let rp := Channel_QueuePurge ch queueName false in
  let rc := Channel_Cancel ch queueName false in
  outcome (Queue.NewQueue queueName exchange options) w
  = Returned (Some q, err) ->
  (options = None -> qo_RoutingKey o = ""%string) /\
  (exists tl, trace (Queue.Subscribe q messages) w'
              = Ev rb (answer w' rb) :: tl) /\
  trace (Queue.Purge q) w' = [Ev rp (answer w' rp)] /\
  outcome (Queue.Purge q) w' = snd <$> answer w' rp /\
  (exists tl, trace (Queue.Close q) w' = Ev rc (answer w' rc) :: tl).
Proof.
  intros o ch rb rp rc Hq.
  destruct (proj1 (proj2 (NewQueue_result_aux queueName exchange options w))
              q err Hq) as (Hname & Hex & Hkey).
  unfold Queue.Name in Hname. fold o in Hkey.
  split; [by intros ->|].
  split; [|split; [|split]].
  - destruct (Queue_Subscribe_first q messages w') as [tl Htl].
    exists tl. rewrite Htl. subst rb ch. by rewrite Hname, Hex, Hkey.
  - apply trace_of_log. rewrite Queue_Purge_run, Hname, Hex. by cbn [snd].
  - unfold outcome. by rewrite Queue_Purge_run, Hname, Hex.
  - destruct (Queue_Close_first q w') as [tl Htl].
    exists tl. rewrite Htl. subst rc ch. by rewrite Hname, Hex.
Qed.

Lemma NewQueue_then_use_witness :
  let q := {| q_exchange := live_exchange; q_routingKey := "";
              q_name := "amqptest.queue" |} in
  trace (Queue.Purge q) (start close_fails)
  = [Ev (Channel_QueuePurge (Some 2) "amqptest.queue" false)
       (Returned (0%Z, None))] /\
  outcome (Queue.Purge q) (start close_fails) = Returned None.
Proof.
  intros q.
  destruct (NewQueue_then_use "amqptest.queue" live_exchange None
              (start two_then_closed) (start close_fails) q None 9 eq_refl)
    as (_ & _ & Htr & Ho & _).
  split; [exact Htr | exact Ho].
Defined.

(** ** Subscribe and the consumer it starts *)

(** The run of [Subscribe], by cases on what the library returns. *)
Lemma Queue_Subscribe_run q messages w :
  let ch := ex_channel (q_exchange q) in
  let rb := Channel_QueueBind ch (q_name q) (q_routingKey q)
              (ex_Name (q_exchange q)) false None in
  let rc := Channel_Consume ch (q_name q) (q_name q) false false false false
              None in
  let wb := after (call rb) w in
  let wc := after (call rc) wb in
  Queue.Subscribe q messages w =
  match answer w rb with
  | Returned (Some err) => (Returned (Some err), wb)
  | Returned None =>
      match answer wb rc with
      | Returned (dd, Some err) => (Returned (Some err), wc)
      | Returned (dd, None) =>
          (Returned None,
           set_goroutines
             (goroutines w
              ++ [{| g_queue := q; g_dd := dd; g_messages := messages |}]) wc)
      | Blocked => (Blocked, wc)
      | Panicked msg => (Panicked msg, wc)
      | OutOfFuel => (OutOfFuel, wc)
      end
  | Blocked => (Blocked, wb)
  | Panicked msg => (Panicked msg, wb)
  | OutOfFuel => (OutOfFuel, wb)
  end.
Proof.
  intros ch rb rc wb wc.
  unfold Queue.Subscribe, Queue.bind, Queue.consumerName.
  rewrite bind_call. fold ch rb wb.
  destruct (answer w rb) as [[err|]| | |]; try reflexivity.
  rewrite bind_call. fold rc wc.
  destruct (answer wb rc) as [[dd [err|]]| | |]; reflexivity.
Qed.

(** X11. [Subscribe] returns nil exactly when it has started a consumer:
    when it returns nil, one closure for this queue and this output channel
    was started; in every other case, a bind or consume error, a call that
    does not return, none was. *)
Theorem Subscribe_starts_consumer_iff_nil (q : Queue) (messages : Chan)
    (w : World) :
  let run := Queue.Subscribe q messages in
  (outcome run w = Returned None ->
   exists dd,
     goroutines (after run w)
     = goroutines w
       ++ [{| g_queue := q; g_dd := dd; g_messages := messages |}]) /\
  (outcome run w <> Returned None ->
   goroutines (after run w) = goroutines w).
Proof.
  intros run.
  pose proof (Queue_Subscribe_run q messages w) as Hrun. cbv zeta in Hrun.
  unfold outcome, after. fold run in Hrun. rewrite Hrun. clear Hrun.
  destruct (answer w _) as [[err|]| | |];
    try (split; [intros H; discriminate H | done]).
  destruct (answer _ _) as [[dd [err|]]| | |];
    try (split; [intros H; discriminate H | done]).
  split; [by exists dd | intros H; by destruct H].
Qed.

Lemma Subscribe_starts_consumer_iff_nil_witness :
  (exists dd,
     goroutines (after (Queue.Subscribe test_queue 9) (start two_then_closed))
     = goroutines (start two_then_closed)
       ++ [{| g_queue := test_queue; g_dd := dd; g_messages := 9 |}]) /\
  goroutines (after (Queue.Subscribe test_queue 9) (start refusing))
  = goroutines (start refusing).
Proof.
  split.
  - apply (proj1 (Subscribe_starts_consumer_iff_nil test_queue 9
                    (start two_then_closed))).
    reflexivity.
  - apply (proj2 (Subscribe_starts_consumer_iff_nil test_queue 9
                    (start refusing))).
    discriminate.
Defined.

Lemma consumer_run_calls cb dd messages tr o :
  consumer_run cb dd messages tr o ->
  func_calls tr = if existsb is_closed_recv tr then 1 else 0.
Proof.
  induction 1 as [|a Ha|d a Ha|d tr o Hrun IH|d a]; try done.
  destruct a as [p| | |]; [by destruct (Ha p)|done..].
Qed.

Lemma consumer_run_runtime cb dd messages tr o :
  consumer_run cb dd messages tr o -> existsb is_library tr = false.
Proof. induction 1; done. Qed.

(** X12. The consumer closure calls the disconnect callback when, and only
    when, a receive on the delivery channel reported not-ok: not when a
    send fails, not when a receive blocks or panics.  And it makes no
    library call at all: it neither acknowledges nor rejects a delivery on
    its own, that is left to the reader of the output channel. *)
Theorem consumer_callback_iff_closed (q : Queue) (dd messages : Chan)
    (fuel : nat) (w : World) :
  let tr := trace (Queue.consume_for fuel q dd messages true) w in
  (func_calls tr = 1 <-> existsb is_closed_recv tr = true) /\
  (func_calls tr = 0 <-> existsb is_closed_recv tr = false) /\
  existsb is_library tr = false.
Proof.
  intros tr.
  pose proof (consume_for_run_shape q dd messages fuel w) as Hs. fold tr in Hs.
  rewrite (consumer_run_calls _ _ _ _ _ Hs).
  split; [|split; [|by eapply consumer_run_runtime]];
    destruct (existsb is_closed_recv tr); split; done.
Qed.

Lemma consumer_callback_iff_closed_witness :
  func_calls (trace (Queue.consume_for 2 test_queue 7 9 true)
                (start two_then_closed)) = 0 /\
  func_calls (trace (Queue.consume_for 3 test_queue 7 9 true)
                (start two_then_closed)) = 1.
Proof.
  split.
  - apply (proj1 (proj2 (consumer_callback_iff_closed test_queue 7 9 2
                           (start two_then_closed)))).
    vm_compute. reflexivity.
  - apply (proj1 (consumer_callback_iff_closed test_queue 7 9 3
                    (start two_then_closed))).
    vm_compute. reflexivity.
Defined.

Lemma NewExchange_callback url options w o e err :
  let p := match options with None => DefaultExchangeOptions | Some p => p end in
  heap w !! p = Some o ->
  outcome (Exchange.NewExchange url options) w = Returned (Some e, err) ->
  ex_onDisconnect e
  = Some (match eo_OnDisconnect o with
          | None => DefaultOnDisconnect
          | Some f => f
          end).
Proof.
  intros p Hp.
  pose proof (NewExchange_run url options w) as Hrun. cbv zeta in Hrun.
  fold p in Hrun. unfold outcome. rewrite Hrun. clear Hrun. rewrite Hp.
  destruct (answer w (Dial _)) as [[c [err1|]]| | |]; try discriminate.
  destruct (answer _ (Connection_Channel c)) as [[ch [err2|]]| | |];
    try discriminate.
  destruct (eo_OnDisconnect o) as [f|] eqn:Ho;
    (destruct (answer _ _) as [[err3|]| | |]; try discriminate);
    intros H; inversion H; subst; cbn; by rewrite ?Ho.
Qed.

(** X13. An exchange that [NewExchange] built from options without a
    callback fails fast: when the delivery stream of one of its queues
    closes, the consumer closure forwards what it received and then ends in
    the panic "Lost connection" of the default callback.  (A hand-made
    exchange with a nil callback ends in a nil dereference instead.) *)
Theorem consumer_of_default_exchange_panics (url : string)
    (options : option nat) (o : ExchangeOptions) (w : World) (e : Exchange)
    (err : error) (q : Queue) (dd messages : Chan) (ds : list Delivery)
    (d0 : Delivery) (w' : World) (fuel : nat) :
  let p := match options with None => DefaultExchangeOptions | Some p => p end in
  let tr := forwarding dd messages ds
            ++ [Ev (RecvDelivery dd) (Returned (d0, false))] in
  let run := Queue.consume_for fuel q dd messages true in
  follows (env w') (log w') tr ->
  length ds < fuel ->
  (heap w !! p = Some o ->
   eo_OnDisconnect o = None ->
   outcome (Exchange.NewExchange url options) w = Returned (Some e, err) ->
   q_exchange q = e ->
   outcome run w' = Panicked "Lost connection" /\
   trace run w'
   = tr ++ [Ev (CallFunc (Some DefaultOnDisconnect))
              (Panicked "Lost connection")]) /\
  (ex_onDisconnect (q_exchange q) = None ->
   outcome run w' = Panicked nil_dereference).
Proof.
  intros p tr run Hf Hfuel.
  pose proof (consume_for_disconnect q dd messages ds d0 w' fuel Hf Hfuel)
    as Hrun.
  cbv zeta in Hrun. fold tr run in Hrun. split.
  - intros Hp Ho He Hq.
    pose proof (NewExchange_callback url options w o e err Hp He) as Hcb.
    rewrite Ho in Hcb. rewrite Hq, Hcb in Hrun.
    unfold outcome. rewrite Hrun. split; [done|].
    apply trace_of_log. rewrite Hrun. unfold after. rewrite invoke_run.
    cbn [snd log set_log func_outcome]. by rewrite <- app_assoc.
  - intros Hnil. rewrite Hnil in Hrun. unfold outcome. by rewrite Hrun.
Qed.

Lemma consumer_of_default_exchange_panics_witness :
  let e := {| ex_Name := "events"; ex_connection := Some 1;
              ex_channel := Some 2;
              ex_onDisconnect := Some DefaultOnDisconnect |} in
  let q := {| q_exchange := e; q_routingKey := ""; q_name := "q" |} in
  let q0 := {| q_exchange := zero_exchange; q_routingKey := "";
               q_name := "q" |} in
  outcome (Queue.consume_for 3 q 7 9 true) (start two_then_closed)
  = Panicked "Lost connection" /\
  outcome (Queue.consume_for 3 q0 7 9 true) (start two_then_closed)
  = Panicked nil_dereference.
Proof.
  intros e q q0. split.
  - refine (proj1 (proj1 (consumer_of_default_exchange_panics "" (Some 5)
             bare_options (with_bare_options two_then_closed)
             e None q 7 9 [delivery1; delivery2]
             zero_Delivery (start two_then_closed) 3 _ _) _ _ _ _)).
    + vm_compute. repeat split.
    + vm_compute. lia.
    + reflexivity.
    + reflexivity.
    + reflexivity.
    + reflexivity.
  - refine (proj2 (consumer_of_default_exchange_panics "" None bare_options
             (start two_then_closed) zero_exchange None q0 7 9
             [delivery1; delivery2] zero_Delivery (start two_then_closed) 3
             _ _) _).
    + vm_compute. repeat split.
    + vm_compute. lia.
    + reflexivity.
Defined.

(** When the receive after the deliveries [ds] does not return, the loop
    has forwarded [ds] and ends as that receive ended. *)
Lemma consume_for_recv_stuck q dd messages ds a w fuel :
  let tr := forwarding dd messages ds ++ [Ev (RecvDelivery dd) a] in
  (forall p, a <> Returned p) ->
  follows (env w) (log w) tr ->
  length ds < fuel ->
  Queue.consume_for fuel q dd messages true w
  = ((fun _ => tt) <$> a, set_log (log w ++ tr) w).
Proof.
  intros tr Ha Hf Hfuel.
  apply follows_app in Hf as [Hfw Hrecv]. cbn in Hrecv.
  destruct Hrecv as [Hrecv _].
  replace fuel with (length ds + S (fuel - S (length ds))) by lia.
  rewrite consume_for_forwarding by exact Hfw.
  rewrite consume_for_step. unfold mbind, M_bind.
  rewrite consume_select_run. unfold answer at 1.
  cbn [log env set_log]. rewrite Hrecv, after_call. unfold answer.
  cbn [log env set_log]. rewrite Hrecv, set_log_twice. subst tr.
  rewrite <- app_assoc.
  destruct a as [p| | |]; [by destruct (Ha p)|done..].
Qed.

(** When the send of the delivery after [ds] does not return, the loop has
    forwarded [ds], taken one more delivery, and ends as that send ended. *)
Lemma consume_for_send_stuck q dd messages ds d a w fuel :
  let tr := forwarding dd messages ds
            ++ [Ev (RecvDelivery dd) (Returned (d, true));
                Ev (SendMessage messages (Queue.message d)) a] in
  (forall u, a <> Returned u) ->
  follows (env w) (log w) tr ->
  length ds < fuel ->
  Queue.consume_for fuel q dd messages true w
  = (a, set_log (log w ++ tr) w).
Proof.
  intros tr Ha Hf Hfuel.
  apply follows_app in Hf as [Hfw Hlast]. cbn in Hlast.
  destruct Hlast as (Hrecv & Hsend & _).
  replace fuel with (length ds + S (fuel - S (length ds))) by lia.
  rewrite consume_for_forwarding by exact Hfw.
  rewrite consume_for_step. unfold mbind, M_bind.
  rewrite consume_select_run. unfold answer at 1.
  cbn [log env set_log]. rewrite Hrecv, !after_call. unfold answer.
  cbn [log env set_log]. rewrite Hrecv, Hsend, !set_log_twice. subst tr.
  rewrite <- !app_assoc.
  destruct a as [u| | |]; [by destruct (Ha u)|done..].
Qed.

Lemma sent_app c tr1 tr2 : sent c (tr1 ++ tr2) = sent c tr1 ++ sent c tr2.
Proof. apply omap_app. Qed.

Lemma received_app c tr1 tr2 :
  received c (tr1 ++ tr2) = received c tr1 ++ received c tr2.
Proof. apply omap_app. Qed.

(** X14. The consumer closure waits with its peers and has no timeout.
    On a stream that stays open and silent after the deliveries [ds], it
    has forwarded [ds] and then blocks in the receive, without calling the
    callback.  When the reader of the output channel stops reading, it
    takes one more delivery from the broker, blocks in sending it, and
    takes no further delivery: that delivery was received and not handed
    over. *)
Theorem consumer_waits (q : Queue) (dd messages : Chan) (ds : list Delivery)
    (d : Delivery) (w : World) (fuel : nat) :
  let run := Queue.consume_for fuel q dd messages true in
  let silent := forwarding dd messages ds ++ [Ev (RecvDelivery dd) Blocked] in
  let unread := forwarding dd messages ds
                ++ [Ev (RecvDelivery dd) (Returned (d, true));
                    Ev (SendMessage messages (Queue.message d)) Blocked] in
  length ds < fuel ->
  (follows (env w) (log w) silent ->
   outcome run w = Blocked /\ trace run w = silent /\
   func_calls (trace run w) = 0) /\
  (follows (env w) (log w) unread ->
   outcome run w = Blocked /\ trace run w = unread /\
   received dd (trace run w) = ds ++ [d] /\
   sent messages (trace run w) = Queue.message <$> ds /\
   func_calls (trace run w) = 0).
Proof.
  intros run silent unread Hfuel. split.
  - intros Hf.
    assert (Ha : forall p : Delivery * bool, Blocked <> Returned p) by done.
    pose proof (consume_for_recv_stuck q dd messages ds Blocked w fuel Ha Hf
                  Hfuel) as Hrun.
    cbv zeta in Hrun. fold silent run in Hrun.
    assert (Htr : trace run w = silent) by (apply trace_of_log; by rewrite Hrun).
    unfold outcome. rewrite Htr, Hrun. split; [done|]. split; [done|].
    subst silent. by rewrite func_calls_forwarding.
  - intros Hf.
    assert (Ha : forall u : unit, Blocked <> Returned u) by done.
    pose proof (consume_for_send_stuck q dd messages ds d Blocked w fuel Ha Hf
                  Hfuel) as Hrun.
    cbv zeta in Hrun. fold unread run in Hrun.
    assert (Htr : trace run w = unread) by (apply trace_of_log; by rewrite Hrun).
    unfold outcome. rewrite Htr, Hrun. split; [done|]. split; [done|].
    subst unread. rewrite received_app, sent_app, func_calls_forwarding.
    rewrite received_forwarding, sent_forwarding.
    rewrite received_cons_recv. cbn. by rewrite app_nil_r.
Qed.

Lemma consumer_waits_witness :
  (outcome (Queue.consume_for 5 test_queue 7 9 true)
     (start (broker [delivery1; delivery2] false None None))
   = Blocked /\
   func_calls
     (trace (Queue.consume_for 5 test_queue 7 9 true)
        (start (broker [delivery1; delivery2] false None None))) = 0) /\
  (received 7 (trace (Queue.consume_for 5 test_queue 7 9 true)
                 (start reader_gone)) = [] ++ [delivery1] /\
   sent 9 (trace (Queue.consume_for 5 test_queue 7 9 true)
             (start reader_gone)) = Queue.message <$> []).
Proof.
  split.
  - destruct (consumer_waits test_queue 7 9 [delivery1; delivery2]
                zero_Delivery
                (start (broker [delivery1; delivery2] false None None)) 5)
      as [Hsilent _].
    + vm_compute. lia.
    + destruct Hsilent as (Ho & _ & Hn).
      * vm_compute. repeat split.
      * split; [exact Ho | exact Hn].
  - destruct (consumer_waits test_queue 7 9 [] delivery1
                (start reader_gone) 5) as [_ Hunread].
    + vm_compute. lia.
    + destruct Hunread as (_ & _ & Hr & Hs & _).
      * vm_compute. repeat split.
      * split; [exact Hr | exact Hs].
Defined.

(** ** Queue.Close and the connection *)

(** X15. When the consumer is cancelled but closing the channel fails,
    [Queue.Close] never closes the connection, and the failure does not
    show in its result, which is the close notification alone: it can
    return nil with the connection left open. *)
Theorem Queue_Close_leaves_connection_open (q : Queue) (w : World) (ch : Chan)
    (err : Err) :
  let ex := q_exchange q in
  let r1 := Channel_Cancel (ex_channel ex) (q_name q) false in
  let w2 := after make_chan (after (call r1) w) in
  let r3 := Channel_NotifyClose (ex_channel ex) (nextChan w) in
  let w3 := after (call r3) w2 in
  let w4 := after (Exchange.Close ex) w3 in
  answer w r1 = Returned None ->
  answer w2 r3 = Returned ch ->
  answer w3 (Channel_Close (ex_channel ex)) = Returned (Some err) ->
  existsb is_Connection_Close (trace (Queue.Close q) w) = false /\
  existsb is_Channel_Close (trace (Queue.Close q) w) = true /\
  outcome (Queue.Close q) w = Queue.error_of <$> answer w4 (RecvError ch).
Proof.
  intros ex r1 w2 r3 w3 w4 H1 H3 Hc.
  pose proof (Exchange_Close_run ex w3) as Hclose. cbv zeta in Hclose.
  rewrite Hc in Hclose.
  assert (Hx : outcome (Exchange.Close ex) w3 = Returned (Some err))
    by (unfold outcome; by rewrite Hclose).
  assert (Hct : trace (Exchange.Close ex) w3
                = [Ev (Channel_Close (ex_channel ex)) (Returned (Some err))]).
  { apply trace_of_log. rewrite Hclose. cbn [snd].
    by rewrite log_after_call, Hc. }
  rewrite (Queue_Close_cancelled_trace q w ch (Some err) H1 H3 Hx).
  fold ex r1 w2 r3 w3 w4. rewrite Hct.
  split; [done|]. split; [done|].
  pose proof (Queue_Close_cancelled q w ch (Some err) H1 H3 Hx) as Hrun.
  cbv zeta in Hrun. fold ex r1 w2 r3 w3 w4 in Hrun.
  unfold outcome. by rewrite Hrun.
Qed.

Lemma Queue_Close_leaves_connection_open_witness :
  existsb is_Connection_Close
    (trace (Queue.Close test_queue) (start close_fails)) = false /\
  existsb is_Channel_Close
    (trace (Queue.Close test_queue) (start close_fails)) = true /\
  outcome (Queue.Close test_queue) (start close_fails) = Returned None.
Proof.
  apply (Queue_Close_leaves_connection_open test_queue (start close_fails) 0
           boom); reflexivity.
Defined.

(** ** Publishing and consuming through a first-in first-out broker *)












